(** * mvp_helm: state machine and per-DOF priority arbitration

    A shallow embedding of [mvp_helm/src/helm/sm.cpp] and of the tick of
    [mvp_helm/src/helm/helm.cpp] ([Helm::f_iterate]), with the properties
    the mission specification states about them.

    Conventions.
    - A [std::vector] or [std::array] is a [list]; an index is a [nat];
      reading or writing past the end has no defined meaning in C++ and is
      the outcome [Undefined] here.
    - [double] is the primitive binary64 [float]; the tick only copies such
      values, it never computes with them.
    - [int] priorities are [Z]; the tick only compares and copies them.
    - A member function that mutates its object takes the object and returns
      the new one. *)

From Stdlib Require Import Floats.PrimFloat ZArith Lia.
From stdpp Require Import base option list gmap strings.
From Stdlib Require Floats.SpecFloat Floats.FloatAxioms.

Open Scope string_scope.
Open Scope list_scope.

(** ** Outcomes *)

(** What a call does: it returns, or it leaves defined behaviour (reading
    the front of an empty vector, indexing an array out of range). *)
Inductive result (A : Type) : Type :=
  | Done (a : A)
  | Undefined.
Arguments Done {A} a.
Arguments Undefined {A}.

Definition rbind {A B : Type} (r : result A) (k : A → result B) : result B :=
  match r with
  | Done a => k a
  | Undefined => Undefined
  end.

Notation "x ←! r ; k" := (rbind r (λ x, k))
  (at level 20, r at level 100, k at level 200, right associativity,
   format "x  ←!  r ;  '/' k").

(** [for (x : xs) acc = body(acc, x)] where the body may leave defined
    behaviour. *)
Fixpoint for_each {A S : Type} (body : S → A → result S) (xs : list A) (acc : S)
  : result S :=
  match xs with
  | [] => Done acc
  | x :: xs' => acc' ←! body acc x; for_each body xs' acc'
  end.

(** ** sm.cpp *)

(** [sm_state_t], as [sm.cpp] and [helm.cpp] use its members. *)
Record sm_state_t : Type := {
  name : string;
  mode : string;
  initial : bool;
  transitions : list string
}.

Record StateMachine : Type := {
  m_states : list sm_state_t;
  m_active_state : sm_state_t
}.

(** [std::vector::front]. *)
Definition front {A : Type} (v : list A) : result A :=
  match v with
  | x :: _ => Done x
  | [] => Undefined
  end.

Definition append_state (state : sm_state_t) (sm : StateMachine) : StateMachine :=
  {| m_states := m_states sm ++ [state]; m_active_state := m_active_state sm |}.

(** [std::find_if] returns the first element the predicate accepts, [None]
    standing for the end iterator. *)
Definition translate_to (state_name : string) (sm : StateMachine)
  : bool * StateMachine :=
  let state_idx :=
    find (λ val, String.eqb (name val) state_name) (m_states sm) in
  let transition_idx :=
    find (λ val, String.eqb val state_name) (transitions (m_active_state sm)) in
  match transition_idx with
  | None => (false, sm)
  | Some _ =>
      match state_idx with
      | Some s => (true, {| m_states := m_states sm; m_active_state := s |})
      | None => (false, sm)
      end
  end.

Definition get_active_state (sm : StateMachine) : sm_state_t :=
  m_active_state sm.

Definition initialize (sm : StateMachine) : result StateMachine :=
  let initial_state := find (λ t, initial t) (m_states sm) in
  match initial_state with
  | Some s => Done {| m_states := m_states sm; m_active_state := s |}
  | None =>
      s ←! front (m_states sm);
      Done {| m_states := m_states sm; m_active_state := s |}
  end.

(** [get_state(name, state)]: the flag returned and the content of [*state]
    afterwards. *)
Definition get_state (nm : string) (state : sm_state_t) (sm : StateMachine)
  : bool * sm_state_t :=
  match find (λ val, String.eqb (name val) nm) (m_states sm) with
  | Some s => (true, s)
  | None => (false, state)
  end.

(** [x] is the first element of [l] that [f] accepts. *)
Definition first_such {A : Type} (f : A → bool) (l : list A) (x : A) : Prop :=
  ∃ pre post, l = pre ++ x :: post ∧ f x = true ∧ Forall (λ y, f y = false) pre.

(** ** Messages and dictionary of the low-level controller *)

Module mvp_control.

(** [mvp_control::ControlMode]: a mode name and the DOFs it controls. *)
Record ControlMode : Type := {
  name : string;
  dofs : list nat
}.

(** [mvp_control::ControlModes]. *)
Record ControlModes : Type := {
  modes : list ControlMode
}.

End mvp_control.

(** What [helm.cpp] takes from [mvp_control/dictionary.h], from the
    [mvp_control::ControlProcess] message and from [utils.h]; none of their
    definitions is part of the sources at hand, so the tick is embedded over
    any choice of them. *)
Class Dictionary : Type := {
  (** [ctrl::CONTROLLABLE_DOF_LENGTH] *)
  CONTROLLABLE_DOF_LENGTH : nat;
  (** [mvp_control::ControlProcess] and a default-constructed one *)
  ControlProcess : Type;
  ControlProcess_new : ControlProcess;
  (** [msg.control_mode = m] *)
  set_control_mode : string → ControlProcess → ControlProcess;
  (** [ros::Time] and [msg.header.stamp = t] *)
  Time : Type;
  set_stamp : Time → ControlProcess → ControlProcess;
  (** [utils::control_process_to_array], [utils::array_to_control_process_msg] *)
  control_process_to_array : ControlProcess → list float;
  array_to_control_process_msg : list float → ControlProcess
}.

(** The member functions of [BehaviorBase] that [helm.cpp] calls on a
    plugin. [request_set_point] receives the set point by pointer and may
    change both it and the behavior. *)
Class BehaviorBase `{Dictionary} (B : Type) : Type := {
  set_helm_frequency : float → B → B;
  set_active_dofs : list nat → B → B;
  register_process_values : ControlProcess → B → B;
  request_set_point : ControlProcess → B → bool * ControlProcess * B;
  get_dofs : B → list nat
}.

(** The options of a behavior, as the tick reads them: [get_opts().states]
    maps a state name to the priority of the behavior in that state. *)
Record behavior_component_t : Type := {
  states : gmap string Z
}.

Record BehaviorContainer (B : Type) : Type := {
  m_behavior : B;
  m_opts : behavior_component_t
}.
Arguments m_behavior {B} _.
Arguments m_opts {B} _.

(** [std::array] element access, [a[i]] and [a[i] = v]. *)
Definition array_get {A : Type} (a : list A) (i : nat) : result A :=
  match a !! i with
  | Some x => Done x
  | None => Undefined
  end.

Definition array_set {A : Type} (a : list A) (i : nat) (v : A) : result (list A) :=
  if decide (i < length a) then Done (<[i:=v]> a) else Undefined.

(** [(ctrl::DOF::IDX)elem] *)
Definition IDX (elem : nat) : nat := elem.

Section helm.
Context `{Dictionary} {B : Type} `{!BehaviorBase B}.

Record Helm : Type := {
  m_helm_freq : float;
  m_controller_process_values : option ControlProcess;
  m_controller_modes : mvp_control.ControlModes;
  m_behavior_containers : list (BehaviorContainer B);
  m_state_machine : StateMachine
}.

(** What a tick does to the outside. *)
Inductive event : Type :=
  | ROS_WARN_STREAM_THROTTLE (period : Z) (text : string)
  | publish (msg : ControlProcess).

(** The scratch arrays of a tick: [dof_ctrl] and [dof_priority]. *)
Definition holders : Type := list float * list Z.

(** Body of [for(const auto& dof : i->get_behavior()->get_dofs())]. *)
Definition arbitrate_dof (priority : Z) (bhv_control_array : list float)
    (acc : holders) (dof : nat) : result holders :=
  let '(dof_ctrl, dof_priority) := acc in
  current ←! array_get dof_priority dof;
  if bool_decide (priority > current)%Z then
    v ←! array_get bhv_control_array dof;
    dof_ctrl' ←! array_set dof_ctrl dof v;
    dof_priority' ←! array_set dof_priority dof priority;
    Done (dof_ctrl', dof_priority')
  else Done acc.

(** Body of [for(const auto& i : m_behavior_containers)]: the container
    after the calls on its behavior, and the scratch arrays. *)
Definition iterate_behavior (active_state : sm_state_t) (dofs : list nat)
    (process_values : ControlProcess) (i : BehaviorContainer B) (acc : holders)
  : result (BehaviorContainer B * holders) :=
  let b1 := set_active_dofs dofs (m_behavior i) in
  let b2 := register_process_values process_values b1 in
  let '(ok, set_point, b3) := request_set_point ControlProcess_new b2 in
  let i' := {| m_behavior := b3; m_opts := m_opts i |} in
  if negb ok then Done (i', acc)
  else
    match states (m_opts i) !! name active_state with
    | None => Done (i', acc)
    | Some priority =>
        match get_dofs b3 with
        | [] => Done (i', acc)
        | _ :: _ =>
            let bhv_control_array := control_process_to_array set_point in
            acc' ←! for_each (arbitrate_dof priority bhv_control_array)
                      (get_dofs b3) acc;
            Done (i', acc')
        end
    end.

Fixpoint iterate_behaviors (active_state : sm_state_t) (dofs : list nat)
    (process_values : ControlProcess) (containers : list (BehaviorContainer B))
    (acc : holders) : result (list (BehaviorContainer B) * holders) :=
  match containers with
  | [] => Done ([], acc)
  | i :: rest =>
      r ←! iterate_behavior active_state dofs process_values i acc;
      rs ←! iterate_behaviors active_state dofs process_values rest r.2;
      Done (r.1 :: rs.1, rs.2)
  end.

Definition mode_not_found (active_state : sm_state_t) : string :=
  "Active mode '" +:+ mode active_state +:+
  "' can not be found in low level controller configuration! Helm is skipping.".

(** [std::array<...> a{}]: every element zero. *)
Definition dof_ctrl_new : list float := replicate CONTROLLABLE_DOF_LENGTH 0%float.
Definition dof_priority_new : list Z := replicate CONTROLLABLE_DOF_LENGTH 0%Z.

(** The message a tick publishes for the merged array [dof_ctrl]. *)
Definition set_point_msg (now : Time) (active_state : sm_state_t)
    (dof_ctrl : list float) : ControlProcess :=
  let msg := array_to_control_process_msg dof_ctrl in
  let msg := set_control_mode (mode active_state) msg in
  set_stamp now msg.

(** [Helm::f_iterate], run at time [now]: the helm afterwards and what
    was logged or published. *)
Definition f_iterate (now : Time) (h : Helm) : result (Helm * list event) :=
  match m_controller_process_values h with
  | None => Done (h, [])
  | Some process_values =>
      let active_state := get_active_state (m_state_machine h) in
      let active_mode :=
        find (λ m, String.eqb (mvp_control.name m) (mode active_state))
             (mvp_control.modes (m_controller_modes h)) in
      match active_mode with
      | None =>
          Done (h, [ROS_WARN_STREAM_THROTTLE 10 (mode_not_found active_state)])
      | Some active_mode =>
          let dofs := map IDX (mvp_control.dofs active_mode) in
          r ←! iterate_behaviors active_state dofs process_values
                 (m_behavior_containers h) (dof_ctrl_new, dof_priority_new);
          let '(containers, (dof_ctrl, _)) := r in
          Done ({| m_helm_freq := m_helm_freq h;
                   m_controller_process_values := m_controller_process_values h;
                   m_controller_modes := m_controller_modes h;
                   m_behavior_containers := containers;
                   m_state_machine := m_state_machine h |},
                [publish (set_point_msg now active_state dof_ctrl)])
      end
  end.


Definition f_generate_sm_states (state : sm_state_t) (h : Helm) : Helm :=
  {| m_helm_freq := m_helm_freq h;
     m_controller_process_values := m_controller_process_values h;
     m_controller_modes := m_controller_modes h;
     m_behavior_containers := m_behavior_containers h;
     m_state_machine := append_state state (m_state_machine h) |}.

(** *** Vocabulary of the statements *)

(** The three calls a tick makes on the behavior of container [i]. *)
Definition consult (dofs : list nat) (process_values : ControlProcess)
    (i : BehaviorContainer B) : bool * ControlProcess * B :=
  request_set_point ControlProcess_new
    (register_process_values process_values
       (set_active_dofs dofs (m_behavior i))).

(** What an eligible behavior puts forward in a tick: its priority in
    the active state, the DOFs it claims and its set point as an array. *)
Record bid : Type := {
  bid_priority : Z;
  bid_dofs : list nat;
  bid_array : list float
}.

(** A container is eligible when [request_set_point] returned true and
    its options have a key for the active state. *)
Definition bid_of (active_state : sm_state_t) (dofs : list nat)
    (process_values : ControlProcess) (i : BehaviorContainer B) : option bid :=
  let '(ok, set_point, b) := consult dofs process_values i in
  if ok then
    match states (m_opts i) !! name active_state with
    | Some priority =>
        Some {| bid_priority := priority;
                bid_dofs := get_dofs b;
                bid_array := control_process_to_array set_point |}
    | None => None
    end
  else None.

(** Every claimed DOF is an index of the scratch arrays and of the set
    point array. *)
Definition bid_in_range (b : bid) : Prop :=
  Forall (λ d, d < CONTROLLABLE_DOF_LENGTH ∧ d < length (bid_array b)) (bid_dofs b).

(** The container after a tick. *)
Definition consulted (dofs : list nat) (process_values : ControlProcess)
    (i : BehaviorContainer B) : BehaviorContainer B :=
  {| m_behavior := (consult dofs process_values i).2; m_opts := m_opts i |}.

(** The active mode of a helm, when the controller declared it. *)
Definition active_mode_of (h : Helm) : option mvp_control.ControlMode :=
  find (λ m, String.eqb (mvp_control.name m)
               (mode (get_active_state (m_state_machine h))))
       (mvp_control.modes (m_controller_modes h)).

Definition with_containers (h : Helm) (cs : list (BehaviorContainer B)) : Helm :=
  {| m_helm_freq := m_helm_freq h;
     m_controller_process_values := m_controller_process_values h;
     m_controller_modes := m_controller_modes h;
     m_behavior_containers := cs;
     m_state_machine := m_state_machine h |}.

(** What a tick logged or published. *)
Definition effects (r : result (Helm * list event)) : result (list event) :=
  x ←! r; Done x.2.

(** *** Vocabulary of the arbitration *)

(** Both scratch arrays have [CONTROLLABLE_DOF_LENGTH] elements. *)
Definition well_formed (acc : holders) : Prop :=
  length acc.1 = CONTROLLABLE_DOF_LENGTH ∧ length acc.2 = CONTROLLABLE_DOF_LENGTH.

(** No recorded priority is negative. *)
Definition non_negative (acc : holders) : Prop := Forall (λ q, 0 ≤ q)%Z acc.2.

(** DOF [d] holds command [v] with recorded priority [q]. *)
Definition slot (acc : holders) (d : nat) (v : float) (q : Z) : Prop :=
  acc.1 !! d = Some v ∧ acc.2 !! d = Some q.

(** The inner loop, for the bid of a container. *)
Definition place_bid (acc : holders) (ob : option bid) : result holders :=
  match ob with
  | Some b => for_each (arbitrate_dof (bid_priority b) (bid_array b)) (bid_dofs b) acc
  | None => Done acc
  end.

Definition place_bids (obs : list (option bid)) (acc : holders) : result holders :=
  for_each place_bid obs acc.

(** The bids that claim DOF [d] with priority [p]. *)
Definition claims (d : nat) (p : Z) (ob : option bid) : Prop :=
  ∃ b, ob = Some b ∧ d ∈ bid_dofs b ∧ bid_priority b = p.

Definition bids_in_range (obs : list (option bid)) : Prop :=
  Forall (λ ob, ∀ b, ob = Some b → bid_in_range b) obs.

(** *** Vocabulary of the tick *)

(** The DOF list a tick hands to every behavior. *)
Definition active_dofs (active_mode : mvp_control.ControlMode) : list nat :=
  map IDX (mvp_control.dofs active_mode).

(** The bid of container [i] in the tick of helm [h]. *)
Definition tick_bid (h : Helm) (process_values : ControlProcess)
    (active_mode : mvp_control.ControlMode) (i : BehaviorContainer B) : option bid :=
  bid_of (get_active_state (m_state_machine h)) (active_dofs active_mode)
    process_values i.

(** Every DOF a bid of the tick claims is a valid index. *)
Definition tick_in_range (h : Helm) (process_values : ControlProcess)
    (active_mode : mvp_control.ControlMode) : Prop :=
  Forall (λ i, ∀ b, tick_bid h process_values active_mode i = Some b → bid_in_range b)
    (m_behavior_containers h).

(** The tick of [h] completes with [dof_ctrl] as the command array its
    loop over the containers ends with, and publishes the message made of
    that array. *)
Definition publishes (now : Time) (h : Helm) (process_values : ControlProcess)
    (active_mode : mvp_control.ControlMode) (dof_ctrl : list float) : Prop :=
  ∃ containers dof_priority,
    iterate_behaviors (get_active_state (m_state_machine h)) (active_dofs active_mode)
      process_values (m_behavior_containers h) (dof_ctrl_new, dof_priority_new)
    = Done (containers, (dof_ctrl, dof_priority))
    ∧ f_iterate now h =
        Done (with_containers h containers,
              [publish (set_point_msg now (get_active_state (m_state_machine h))
                          dof_ctrl)]).

(** *** Startup of the state machine *)

Definition with_state_machine (h : Helm) (sm : StateMachine) : Helm :=
  {| m_helm_freq := m_helm_freq h;
     m_controller_process_values := m_controller_process_values h;
     m_controller_modes := m_controller_modes h;
     m_behavior_containers := m_behavior_containers h;
     m_state_machine := sm |}.

(** Modelled from the spec: the parser ([parser.cpp] is not among the
    sources). It "invokes ... one [callback] per discovered state
    declaration", and the "order of invocation matches declaration order in
    the source". This is what [Helm::initialize] does to the state machine:
    it makes a new one, whose active state [fresh] is default-constructed,
    runs the parser with the state callback bound to
    [f_generate_sm_states], and calls [StateMachine::initialize]. *)
Definition Helm_initialize_states (fresh : sm_state_t) (declared : list sm_state_t)
    (h : Helm) : result Helm :=
  let h := with_state_machine h {| m_states := []; m_active_state := fresh |} in
  let h := foldl (λ h state, f_generate_sm_states state h) h declared in
  sm ←! initialize (m_state_machine h);
  Done (with_state_machine h sm).

End helm.

(** ** A small mission to run the definitions on *)

Module Sample.

(** A control process message that keeps its DOF values as the array. *)
Record message : Type := {
  values : list float;
  control_mode : string;
  stamp : nat
}.

Definition DOF_X : nat := 0.
Definition DOF_Y : nat := 1.
Definition DOF_Z : nat := 2.
Definition DOF_ROLL : nat := 3.
Definition DOF_PITCH : nat := 4.
Definition DOF_YAW : nat := 5.

#[export] Instance dictionary : Dictionary := {|
  CONTROLLABLE_DOF_LENGTH := 6;
  ControlProcess := message;
  ControlProcess_new := {| values := replicate 6 0%float; control_mode := ""; stamp := 0 |};
  set_control_mode m msg :=
    {| values := values msg; control_mode := m; stamp := stamp msg |};
  Time := nat;
  set_stamp t msg :=
    {| values := values msg; control_mode := control_mode msg; stamp := t |};
  control_process_to_array msg := values msg;
  array_to_control_process_msg a := {| values := a; control_mode := ""; stamp := 0 |}
|}.

(** A behavior that answers from a script: the DOFs it claims, what
    [request_set_point] returns and the values it writes; it records what
    the helm told it. *)
Record Scripted : Type := {
  claimed : list nat;
  answer : bool;
  proposal : list float;
  told_dofs : list nat;
  told_values : option message;
  told_frequency : float
}.

Definition script (ds : list nat) (ok : bool) (vs : list float) : Scripted :=
  {| claimed := ds; answer := ok; proposal := vs;
     told_dofs := []; told_values := None; told_frequency := 0%float |}.

#[export] Instance scripted : BehaviorBase Scripted := {|
  set_helm_frequency f b :=
    {| claimed := claimed b; answer := answer b; proposal := proposal b;
       told_dofs := told_dofs b; told_values := told_values b; told_frequency := f |};
  set_active_dofs ds b :=
    {| claimed := claimed b; answer := answer b; proposal := proposal b;
       told_dofs := ds; told_values := told_values b;
       told_frequency := told_frequency b |};
  register_process_values pv b :=
    {| claimed := claimed b; answer := answer b; proposal := proposal b;
       told_dofs := told_dofs b; told_values := Some pv;
       told_frequency := told_frequency b |};
  request_set_point set_point b :=
    (answer b,
     {| values := proposal b; control_mode := control_mode set_point;
        stamp := stamp set_point |},
     b);
  get_dofs b := claimed b
|}.

(** States: the scenario of the specification's section 8. *)
Definition state_A : sm_state_t :=
  {| name := "A"; mode := "flight"; initial := true; transitions := ["B"] |}.
Definition state_B : sm_state_t :=
  {| name := "B"; mode := "hold"; initial := false; transitions := ["A"] |}.
(** A second declaration of the name "A". *)
Definition state_A_again : sm_state_t :=
  {| name := "A"; mode := "hold"; initial := false; transitions := [] |}.
(** A state nothing leads to. *)
Definition state_C : sm_state_t :=
  {| name := "C"; mode := "unknown"; initial := false; transitions := ["A"] |}.
Definition no_state : sm_state_t :=
  {| name := ""; mode := ""; initial := false; transitions := [] |}.

Definition machine_at (active : sm_state_t) : StateMachine :=
  {| m_states := [state_A; state_B; state_C]; m_active_state := active |}.

(** Modes of the low-level controller: "flight" controls x and yaw
    only, "hold" controls depth and pitch. *)
Definition flight : mvp_control.ControlMode :=
  {| mvp_control.name := "flight"; mvp_control.dofs := [DOF_X; DOF_YAW] |}.
Definition hold : mvp_control.ControlMode :=
  {| mvp_control.name := "hold"; mvp_control.dofs := [DOF_Z; DOF_PITCH] |}.

Definition feedback : message :=
  {| values := [1; 2; 3; 0; 0; 0]%float; control_mode := "flight"; stamp := 7 |}.

Definition container (ds : list nat) (ok : bool) (vs : list float)
    (priorities : gmap string Z) : BehaviorContainer Scripted :=
  {| m_behavior := script ds ok vs; m_opts := {| states := priorities |} |}.

(** Behaviors of the first scenario: both claim pitch in state "A". *)
Definition level : BehaviorContainer Scripted :=
  container [DOF_PITCH] true [0; 0; 0; 0; 0.5; 0]%float {[ "A" := 5%Z ]}.
Definition depth : BehaviorContainer Scripted :=
  container [DOF_PITCH; DOF_Z] true [0; 0; 3.5; 0; 0.25; 0]%float {[ "A" := 10%Z ]}.
(** Same priority as [level], declared elsewhere in the list. *)
Definition trim : BehaviorContainer Scripted :=
  container [DOF_PITCH] true [0; 0; 0; 0; 0.75; 0]%float {[ "A" := 5%Z ]}.
(** A behavior with no priority for state "A". *)
Definition surface : BehaviorContainer Scripted :=
  container [DOF_PITCH; DOF_Z] true [0; 0; 9; 0; 1; 0]%float {[ "B" := 50%Z ]}.
(** Behaviors with priorities that are not positive. *)
Definition zero : BehaviorContainer Scripted :=
  container [DOF_PITCH] true [0; 0; 0; 0; 1.5; 0]%float {[ "A" := 0%Z ]}.
Definition zero_too : BehaviorContainer Scripted :=
  container [DOF_PITCH] true [0; 0; 0; 0; 2.5; 0]%float {[ "A" := 0%Z ]}.
Definition negative : BehaviorContainer Scripted :=
  container [DOF_PITCH] true [0; 0; 0; 0; 2; 0]%float {[ "A" := (-1)%Z ]}.

Definition helm_with (process_values : option message) (active : sm_state_t)
    (containers : list (BehaviorContainer Scripted)) : Helm :=
  {| m_helm_freq := 10%float;
     m_controller_process_values := process_values;
     m_controller_modes := {| mvp_control.modes := [flight; hold] |};
     m_behavior_containers := containers;
     m_state_machine := machine_at active |}.

(** A helm before its startup: no feedback, no behavior, no state. *)
Definition helm_new : Helm (B:=Scripted) :=
  {| m_helm_freq := 10%float;
     m_controller_process_values := None;
     m_controller_modes := {| mvp_control.modes := [] |};
     m_behavior_containers := [];
     m_state_machine := {| m_states := []; m_active_state := no_state |} |}.

(** The helms the closed lemmas below run a tick on. *)
Definition helm_three : Helm := helm_with (Some feedback) state_A [level; depth; trim].
Definition helm_ties : Helm := helm_with (Some feedback) state_A [zero; level; trim; surface].
Definition helm_gated : Helm := helm_with (Some feedback) state_A [level; surface; depth].
Definition helm_low : Helm := helm_with (Some feedback) state_A [zero; negative].
Definition helm_zeros : Helm := helm_with (Some feedback) state_A [zero; zero_too].
Definition helm_zero_first : Helm := helm_with (Some feedback) state_A [zero; level].

Definition bid_level : bid :=
  {| bid_priority := 5; bid_dofs := [DOF_PITCH];
     bid_array := [0; 0; 0; 0; 0.5; 0]%float |}.
Definition bid_depth : bid :=
  {| bid_priority := 10; bid_dofs := [DOF_PITCH; DOF_Z];
     bid_array := [0; 0; 3.5; 0; 0.25; 0]%float |}.
Definition bid_zero : bid :=
  {| bid_priority := 0; bid_dofs := [DOF_PITCH];
     bid_array := [0; 0; 0; 0; 1.5; 0]%float |}.
Definition bid_zero_too : bid :=
  {| bid_priority := 0; bid_dofs := [DOF_PITCH];
     bid_array := [0; 0; 0; 0; 2.5; 0]%float |}.
Definition bid_negative : bid :=
  {| bid_priority := -1; bid_dofs := [DOF_PITCH];
     bid_array := [0; 0; 0; 0; 2; 0]%float |}.

(** The time of the sample tick. *)
Definition at_3 : @Time dictionary := 3.

(** The command with every DOF at its initial zero. *)
Definition all_zero (now : nat) : message :=
  {| values := replicate 6 0%float; control_mode := "flight"; stamp := now |}.

End Sample.

(** ** Sequences of calls on a state machine *)

(** The two calls that change a state machine once it is initialized:
    [append_state] and [translate_to], whose returned flag is dropped
    here. *)
Inductive sm_call : Type :=
  | call_append_state (state : sm_state_t)
  | call_translate_to (state_name : string).

Definition sm_do (sm : StateMachine) (c : sm_call) : StateMachine :=
  match c with
  | call_append_state state => append_state state sm
  | call_translate_to state_name => (translate_to state_name sm).2
  end.

Definition sm_run (calls : list sm_call) (sm : StateMachine) : StateMachine :=
  foldl sm_do sm calls.

(** ** The helm loop *)

Section helm_loop.
Context `{Dictionary} {B : Type} `{!BehaviorBase B}.


(** Two bids that tie on a DOF propose the same value for it. *)
Definition ties_agree (obs : list (option bid)) : Prop :=
  ∀ b1 b2 d, Some b1 ∈ obs → Some b2 ∈ obs →
    d ∈ bid_dofs b1 → d ∈ bid_dofs b2 → bid_priority b1 = bid_priority b2 →
    bid_array b1 !! d = bid_array b2 !! d.


End helm_loop.

(** Helms for the closed instances of the further properties. *)
Definition helm_wild : Helm :=
  Sample.helm_with (Some Sample.feedback) Sample.state_A
    [Sample.level;
     Sample.container [Sample.DOF_PITCH; 6] true [0; 0; 0; 0; 0; 0]%float {[ "A" := 1%Z ]}].
Definition helm_two : Helm :=
  Sample.helm_with (Some Sample.feedback) Sample.state_A [Sample.level; Sample.depth].

(** ** depth_tracking.cpp *)

Module depth_tracking.

(** [geometry_msgs::Vector3] and the members of
    [mvp_control::ControlProcess] that the plugin reads or writes. *)
Record Vector3 : Type := {
  x : float;
  y : float;
  z : float
}.

Record ControlProcess : Type := {
  position : Vector3;
  velocity : Vector3;
  orientation : Vector3
}.

(** The members of [DepthTracking]; [m_dofs] and [m_process_values] are
    those of its base class. *)
Record DepthTracking : Type := {
  m_dofs : list nat;
  m_process_values : ControlProcess;
  m_requested_depth : float;
  m_p_gain : float;
  m_d_gain : float;
  m_max_pitch : float;
  m_fwd_distance : float
}.

(** [M_PI_2] of [math.h], the binary64 value nearest to pi/2. *)
Definition M_PI_2 : float := 0x1.921fb54442d18p+0%float.

(** [nh->param(key, variable, default_value)]: the value the parameter
    server holds for the key, or the default. *)
Definition param (server : gmap string float) (key : string) (default_value : float)
  : float :=
  default default_value (server !! key).

Section plugin.
(** [atan] of [math.h], and the indices [ctrl::DOF::PITCH] and
    [ctrl::DOF::Z] of the controller's dictionary. *)
Variable atan : float → float.
Variables DOF_PITCH DOF_Z : nat.

(** [DepthTracking::initialize], without the node handle and the
    subscription. *)
Definition initialize (server : gmap string float) (self : DepthTracking)
  : DepthTracking :=
  {| m_dofs := [DOF_PITCH; DOF_Z];
     m_process_values := m_process_values self;
     m_requested_depth := param server "initialize_depth" 0%float;
     m_p_gain := param server "p_gain" 1%float;
     m_d_gain := param server "d_gain" 0%float;
     m_max_pitch := param server "max_pitch" M_PI_2;
     m_fwd_distance := param server "fwd_distance" 3%float |}.

Definition f_cb_sub (data : float) (self : DepthTracking) : DepthTracking :=
  {| m_dofs := m_dofs self;
     m_process_values := m_process_values self;
     m_requested_depth := data;
     m_p_gain := m_p_gain self;
     m_d_gain := m_d_gain self;
     m_max_pitch := m_max_pitch self;
     m_fwd_distance := m_fwd_distance self |}.

(** The pitch before it is limited. *)
Definition raw_pitch (self : DepthTracking) : float :=
  let error :=
    PrimFloat.sub (z (position (m_process_values self))) (m_requested_depth self) in
  let pitch := atan (PrimFloat.div error (m_fwd_distance self)) in
  if negb (PrimFloat.eqb (x (velocity (m_process_values self))) 0%float) then
    PrimFloat.add pitch
      (atan (PrimFloat.div (z (velocity (m_process_values self)))
                           (x (velocity (m_process_values self)))))
  else pitch.

(** [DepthTracking::request_set_point]: the flag returned and the set
    point afterwards. *)
Definition request_set_point (self : DepthTracking) (set_point : ControlProcess)
  : bool * ControlProcess :=
  let pitch := raw_pitch self in
  let limited :=
    if PrimFloat.ltb (m_max_pitch self) (PrimFloat.abs pitch) then
      if PrimFloat.leb 0%float pitch then m_max_pitch self
      else PrimFloat.opp (m_max_pitch self)
    else pitch in
  (true,
   {| position := position set_point;
      velocity := velocity set_point;
      orientation := {| x := x (orientation set_point);
                        y := limited;
                        z := z (orientation set_point) |} |}).

End plugin.

(** A plugin at rest at the origin, before [initialize]. *)
Definition at_rest : DepthTracking :=
  let zero := {| x := 0%float; y := 0%float; z := 0%float |} in
  {| m_dofs := [];
     m_process_values := {| position := zero; velocity := zero; orientation := zero |};
     m_requested_depth := 0%float; m_p_gain := 0%float; m_d_gain := 0%float;
     m_max_pitch := 0%float; m_fwd_distance := 0%float |}.

End depth_tracking.

(** ** Declared transitions *)

(** From state [a] the declared list offers [b]: [a] lists the name of
    [b], and [b] is declared. *)
Definition declared_transition (sm : StateMachine) (a b : sm_state_t) : Prop :=
  name b ∈ transitions a ∧ b ∈ m_states sm.

(** Two behaviors with no DOF in common. *)
Definition steer : BehaviorContainer Sample.Scripted :=
  Sample.container [Sample.DOF_YAW; Sample.DOF_X] true [7; 0; 0; 0; 0; 1.25]%float
    {[ "A" := 2%Z ]}.
Definition helm_apart : Helm :=
  Sample.helm_with (Some Sample.feedback) Sample.state_A [Sample.level; steer].

(** ** Tactics for closed instances *)

(** Closes [tick_in_range] or [bid_in_range] on a concrete helm. *)
Ltac in_range :=
  unfold tick_in_range, bid_in_range;
  repeat first
    [ apply Forall_nil
    | apply Forall_cons; split
    | progress (intros b Hb; vm_compute in Hb; simplify_eq)
    | progress (vm_compute; lia) ].

(** Two binary64 values told apart by whether they are zero. *)
Ltac float_differ H :=
  apply (f_equal (λ o, from_option PrimFloat.is_zero false o)) in H;
  vm_compute in H; discriminate H.

(** * Properties *)

(** ** Facts about [find] *)

Lemma find_Some_first {A : Type} (f : A → bool) (l : list A) (x : A) :
  find f l = Some x ↔ first_such f l x.
Proof.
  induction l as [|y l IH]; simpl.
  - split; [discriminate|].
    intros (pre & post & E & _). by destruct pre.
  - destruct (f y) eqn:Hy.
    + split.
      * intros [= ->]. exists [], l. by repeat split.
      * intros (pre & post & E & Hx & Hpre).
        destruct pre as [|z pre]; simplify_eq/=; [done|].
        apply Forall_cons in Hpre as [Hz _]. congruence.
    + rewrite IH. split.
      * intros (pre & post & -> & Hx & Hpre).
        exists (y :: pre), post. repeat split; [done|]. by constructor.
      * intros (pre & post & E & Hx & Hpre).
        destruct pre as [|z pre]; simplify_eq/=; [congruence|].
        apply Forall_cons in Hpre as [_ Hpre]. by exists pre, post.
Qed.

Lemma find_None_Forall {A : Type} (f : A → bool) (l : list A) :
  find f l = None ↔ Forall (λ y, f y = false) l.
Proof.
  induction l as [|y l IH]; simpl.
  - split; [constructor | done].
  - destruct (f y) eqn:Hy.
    + split; [discriminate|]. intros [? _]%Forall_cons. congruence.
    + rewrite IH. split; [by constructor | by intros [_ ?]%Forall_cons].
Qed.

Lemma find_is_Some {A : Type} (f : A → bool) (l : list A) :
  is_Some (find f l) ↔ ∃ x, x ∈ l ∧ f x = true.
Proof.
  split.
  - intros [x Hx]. exists x. apply find_some in Hx as [Hin ?].
    by rewrite list_elem_of_In.
  - intros (x & Hin & Hx). destruct (find f l) eqn:E; [by eexists|].
    rewrite list_elem_of_In in Hin.
    pose proof (find_none _ _ E _ Hin). congruence.
Qed.

Lemma string_eqb_true (a b : string) : String.eqb a b = true ↔ a = b.
Proof. apply String.eqb_eq. Qed.

(** ** The state machine's properties *)

(** C3. [translate_to name] returns true exactly when [name] is among the
    active state's transitions and some declared state carries that name;
    it then makes the first declared state of that name the active one and
    leaves the declared list alone. In every other case it returns false
    and the state machine is unchanged. *)
Theorem translate_to_legality (state_name : string) (sm : StateMachine) :
  let '(ok, sm') := translate_to state_name sm in
  (ok = true ↔
     state_name ∈ transitions (m_active_state sm)
     ∧ ∃ s, s ∈ m_states sm ∧ name s = state_name)
  ∧ (ok = true →
       m_states sm' = m_states sm
       ∧ name (m_active_state sm') = state_name
       ∧ first_such (λ val, String.eqb (name val) state_name)
           (m_states sm) (m_active_state sm'))
  ∧ (ok = false → sm' = sm).
Proof.
  unfold translate_to.
  destruct (find _ (transitions _)) as [t|] eqn:Ht.
  - assert (state_name ∈ transitions (m_active_state sm)) as Hin.
    { apply find_some in Ht as [Hin ->%string_eqb_true].
      by apply list_elem_of_In. }
    destruct (find _ (m_states sm)) as [s|] eqn:Hs.
    + pose proof Hs as Hfirst. apply find_Some_first in Hfirst.
      apply find_some in Hs as [Hs Hn%string_eqb_true].
      apply list_elem_of_In in Hs.
      repeat split; simpl; eauto; done.
    + repeat split; try done.
      intros [_ (s & Hin' & Hn)].
      apply list_elem_of_In in Hin'.
      pose proof (find_none _ _ Hs _ Hin') as Hf. simpl in Hf.
      apply (proj2 (string_eqb_true _ _)) in Hn. congruence.
  - repeat split; try done.
    intros [Hin _]. apply list_elem_of_In in Hin.
    pose proof (find_none _ _ Ht _ Hin) as Hf. simpl in Hf.
    rewrite String.eqb_refl in Hf. discriminate.
Qed.

(** ** The loops *)

Lemma rbind_Done {A C : Type} (r : result A) (k : A → result C) (c : C) :
  rbind r k = Done c ↔ ∃ a, r = Done a ∧ k a = Done c.
Proof.
  destruct r as [a|]; simpl; split.
  - intros Hk. by exists a.
  - by intros (a' & [= ->] & Hk).
  - discriminate.
  - by intros (a' & [=] & _).
Qed.

Lemma for_each_app {A S : Type} (body : S → A → result S) (xs ys : list A) (acc : S) :
  for_each body (xs ++ ys) acc = (acc' ←! for_each body xs acc; for_each body ys acc').
Proof.
  revert acc. induction xs as [|x xs IH]; intros acc; simpl; [done|].
  destruct (body acc x) as [acc1|]; simpl; [apply IH | done].
Qed.

(** An invariant of the body is an invariant of the loop. *)
Lemma for_each_invariant {A S : Type} (P : S → Prop) (body : S → A → result S)
    (xs : list A) (acc acc' : S) :
  (∀ s x s', x ∈ xs → P s → body s x = Done s' → P s') →
  P acc → for_each body xs acc = Done acc' → P acc'.
Proof.
  revert acc. induction xs as [|x xs IH]; intros acc Hbody HP; simpl.
  - by intros [= <-].
  - intros (acc1 & H1 & Hrest)%rbind_Done.
    apply (IH acc1); [|by eapply Hbody; [left|..]|done].
    intros s y s' Hy. apply Hbody. by right.
Qed.

(** ** One DOF of one behavior *)

Section arbitration.
Context `{Dictionary} {B : Type} `{!BehaviorBase B}.

Lemma well_formed_new : well_formed (dof_ctrl_new, dof_priority_new).
Proof. split; apply length_replicate. Qed.

Lemma non_negative_new : non_negative (dof_ctrl_new, dof_priority_new).
Proof. apply Forall_replicate. done. Qed.

Lemma slot_new (d : nat) :
  d < CONTROLLABLE_DOF_LENGTH → slot (dof_ctrl_new, dof_priority_new) d 0%float 0%Z.
Proof. intros Hd. split; by apply lookup_replicate_2. Qed.

Lemma slot_is_Some (acc : holders) (d : nat) :
  well_formed acc → d < CONTROLLABLE_DOF_LENGTH → ∃ v q, slot acc d v q.
Proof.
  intros [Hc Hq] Hd.
  destruct (lookup_lt_is_Some_2 acc.1 d) as [v Hv]; [lia|].
  destruct (lookup_lt_is_Some_2 acc.2 d) as [q Hq']; [lia|].
  by exists v, q.
Qed.

Lemma slot_lt (acc : holders) (d : nat) (v : float) (q : Z) :
  well_formed acc → slot acc d v q → d < CONTROLLABLE_DOF_LENGTH.
Proof. intros [Hc _] [Hv _]. apply lookup_lt_Some in Hv. lia. Qed.

Lemma slot_inj (acc : holders) (d : nat) (v v' : float) (q q' : Z) :
  slot acc d v q → slot acc d v' q' → v = v' ∧ q = q'.
Proof. intros [? ?] [? ?]. split; congruence. Qed.

Lemma array_get_Done {A : Type} (a : list A) (i : nat) (x : A) :
  array_get a i = Done x ↔ a !! i = Some x.
Proof.
  unfold array_get. destruct (a !! i); split; intros; simplify_eq; done.
Qed.

Lemma array_set_Done {A : Type} (a a' : list A) (i : nat) (x : A) :
  array_set a i x = Done a' ↔ i < length a ∧ a' = <[i:=x]> a.
Proof.
  unfold array_set. case_decide; split.
  - by intros [= <-].
  - by intros [_ ->].
  - discriminate.
  - intros [? _]. lia.
Qed.

(** What one pass of the inner loop body does, read off the source: the
    claimed DOF is overwritten exactly when the priority is strictly
    greater than the recorded one; every other DOF is left alone. *)
Lemma arbitrate_dof_Done (p : Z) (arr : list float) (acc acc' : holders) (dof : nat) :
  well_formed acc →
  arbitrate_dof p arr acc dof = Done acc' →
  well_formed acc'
  ∧ ∀ d v q, slot acc d v q →
      (d = dof → (q < p)%Z → ∃ v', arr !! d = Some v' ∧ slot acc' d v' p)
      ∧ (d ≠ dof ∨ (p ≤ q)%Z → slot acc' d v q).
Proof.
  destruct acc as [c pr]. intros [Hc Hp]. simpl in Hc, Hp. unfold arbitrate_dof.
  intros (cur & Hcur%array_get_Done & Hrest)%rbind_Done.
  case_bool_decide as Hgt.
  - apply rbind_Done in Hrest as (v0 & Hv0%array_get_Done & Hrest).
    apply rbind_Done in Hrest as (c' & [Hlt ->]%array_set_Done & Hrest).
    apply rbind_Done in Hrest as (pr' & [Hlt' ->]%array_set_Done & [= <-]).
    split; [split; simpl; by rewrite length_insert|].
    intros d v q [Hv Hq]. simpl in Hv, Hq. split.
    + intros -> _. exists v0. split; [done|].
      split; simpl; by apply list_lookup_insert_eq.
    + intros [Hne|Hle].
      * split; simpl; by rewrite list_lookup_insert_ne.
      * destruct (decide (d = dof)) as [->|Hne];
          [|split; simpl; by rewrite list_lookup_insert_ne].
        simplify_eq. lia.
  - injection Hrest as <-. split; [done|].
    intros d v q [Hv Hq]. simpl in Hv, Hq. split; [|done].
    intros -> Hlt. simplify_eq. lia.
Qed.

Lemma arbitrate_dof_total (p : Z) (arr : list float) (acc : holders) (dof : nat) :
  well_formed acc → dof < CONTROLLABLE_DOF_LENGTH → dof < length arr →
  ∃ acc', arbitrate_dof p arr acc dof = Done acc'.
Proof.
  destruct acc as [c pr]. intros [Hc Hp] Hd Ha. simpl in Hc, Hp.
  unfold arbitrate_dof.
  destruct (lookup_lt_is_Some_2 pr dof) as [cur Hcur]; [lia|].
  destruct (lookup_lt_is_Some_2 arr dof) as [v Hv]; [lia|].
  unfold array_get, array_set. rewrite Hcur. simpl.
  case_bool_decide; [|by eexists].
  rewrite Hv. simpl. rewrite !decide_True by lia. simpl. by eexists.
Qed.

Lemma arbitrate_dof_non_negative (p : Z) (arr : list float) (acc acc' : holders)
    (dof : nat) :
  non_negative acc → arbitrate_dof p arr acc dof = Done acc' → non_negative acc'.
Proof.
  destruct acc as [c pr]. unfold non_negative, arbitrate_dof. simpl.
  intros Hnn (cur & Hcur%array_get_Done & Hrest)%rbind_Done.
  case_bool_decide as Hgt; [|by injection Hrest as <-].
  apply rbind_Done in Hrest as (v0 & _ & Hrest).
  apply rbind_Done in Hrest as (c' & _ & Hrest).
  apply rbind_Done in Hrest as (pr' & [Hlt' ->]%array_set_Done & [= <-]).
  simpl. apply Forall_insert; [done|].
  assert (0 ≤ cur)%Z; [|lia].
  by eapply (Forall_lookup_1 _ _ _ _ Hnn).
Qed.

(** *** One behavior *)

(** The outer loop body is: consult the behavior, then place its bid. *)
Lemma iterate_behavior_bid (st : sm_state_t) (dofs : list nat) (pv : ControlProcess)
    (i : BehaviorContainer B) (acc : holders) :
  iterate_behavior st dofs pv i acc =
    (acc' ←! place_bid acc (bid_of st dofs pv i); Done (consulted dofs pv i, acc')).
Proof.
  unfold iterate_behavior, bid_of, consulted, consult.
  destruct (request_set_point _ _) as [[ok set_point] b3]. simpl.
  destruct ok; simpl; [|done].
  destruct (states (m_opts i) !! name st) as [priority|]; simpl; [|done].
  destruct (get_dofs b3); simpl; done.
Qed.

Lemma iterate_behaviors_bids (st : sm_state_t) (dofs : list nat) (pv : ControlProcess)
    (cs : list (BehaviorContainer B)) (acc : holders) :
  iterate_behaviors st dofs pv cs acc =
    (acc' ←! place_bids (bid_of st dofs pv <$> cs) acc;
     Done (consulted dofs pv <$> cs, acc')).
Proof.
  revert acc. induction cs as [|i cs IH]; intros acc; simpl; [done|].
  rewrite iterate_behavior_bid.
  unfold place_bids. simpl.
  destruct (place_bid acc _) as [acc1|]; simpl; [|done].
  rewrite IH. unfold place_bids.
  destruct (for_each _ _ acc1); simpl; done.
Qed.

Lemma place_bid_Done (b : bid) (acc acc' : holders) :
  well_formed acc →
  place_bid acc (Some b) = Done acc' →
  well_formed acc'
  ∧ ∀ d v q, slot acc d v q →
      (d ∈ bid_dofs b → (q < bid_priority b)%Z →
         ∃ v', bid_array b !! d = Some v' ∧ slot acc' d v' (bid_priority b))
      ∧ (d ∉ bid_dofs b ∨ (bid_priority b ≤ q)%Z → slot acc' d v q).
Proof.
  simpl. generalize (bid_dofs b) as ds. intros ds. revert acc.
  induction ds as [|dof ds IH]; intros acc Hwf; simpl.
  - intros [= <-]. split; [done|]. intros d v q Hs. split; [|done].
    by intros ?%elem_of_nil.
  - intros (acc1 & H1 & Hrest)%rbind_Done.
    destruct (arbitrate_dof_Done _ _ _ _ _ Hwf H1) as [Hwf1 Hstep].
    destruct (IH _ Hwf1 Hrest) as [Hwf' Hloop].
    split; [done|]. intros d v q Hs.
    destruct (Hstep d v q Hs) as [Hwin Hkeep].
    destruct (decide (d = dof ∧ (q < bid_priority b)%Z)) as [[-> Hlt]|Hno].
    + destruct (Hwin eq_refl Hlt) as (v' & Hv' & Hs1).
      destruct (Hloop dof v' _ Hs1) as [_ Hkeep1].
      split.
      * intros _ _. exists v'. split; [done|]. apply Hkeep1. right. lia.
      * intros [Hnot|Hle]; [|lia]. exfalso. apply Hnot. by left.
    + assert (slot acc1 d v q) as Hs1.
      { apply Hkeep. destruct (decide (d = dof)); [right|by left].
        destruct (decide (q < bid_priority b)%Z); [|lia].
        exfalso. by apply Hno. }
      destruct (Hloop d v q Hs1) as [Hwin1 Hkeep1].
      split.
      * intros [->|Hin]%elem_of_cons Hlt; [exfalso; by apply Hno|].
        by apply Hwin1.
      * intros [Hnot|Hle]; apply Hkeep1; [left|by right].
        intros Hin. apply Hnot. by right.
Qed.

Lemma place_bid_total (b : bid) (acc : holders) :
  well_formed acc → bid_in_range b → ∃ acc', place_bid acc (Some b) = Done acc'.
Proof.
  unfold bid_in_range. simpl. generalize (bid_dofs b) as ds. intros ds. revert acc.
  induction ds as [|dof ds IH]; intros acc Hwf Hr; simpl; [by eexists|].
  apply Forall_cons in Hr as [[Hd Ha] Hr].
  destruct (arbitrate_dof_total (bid_priority b) (bid_array b) acc dof)
    as [acc1 H1]; [done..|].
  rewrite H1. simpl. apply IH; [|done].
  by destruct (arbitrate_dof_Done _ _ _ _ _ Hwf H1).
Qed.

Lemma place_bid_non_negative (ob : option bid) (acc acc' : holders) :
  non_negative acc → place_bid acc ob = Done acc' → non_negative acc'.
Proof.
  destruct ob as [b|]; simpl; [|by intros ? [= <-]].
  intros Hnn. apply for_each_invariant; [|done].
  intros s x s' _. apply arbitrate_dof_non_negative.
Qed.

Lemma place_bid_well_formed (ob : option bid) (acc acc' : holders) :
  well_formed acc → place_bid acc ob = Done acc' → well_formed acc'.
Proof.
  destruct ob as [b|]; simpl; [|by intros ? [= <-]].
  intros Hwf Hd. by destruct (place_bid_Done b acc acc' Hwf Hd).
Qed.

(** A bid whose priority is not above any recorded priority changes
    nothing. *)
Lemma place_bid_low (b : bid) (acc : holders) :
  well_formed acc → bid_in_range b →
  Forall (λ q, bid_priority b ≤ q)%Z acc.2 →
  place_bid acc (Some b) = Done acc.
Proof.
  unfold bid_in_range. simpl. generalize (bid_dofs b) as ds. intros ds.
  intros Hwf Hr Hlow.
  induction ds as [|dof ds IH]; simpl; [done|].
  apply Forall_cons in Hr as [[Hd Ha] Hr].
  assert (arbitrate_dof (bid_priority b) (bid_array b) acc dof = Done acc) as ->.
  { destruct acc as [c pr]. destruct Hwf as [Hc Hp]. simpl in *.
    destruct (lookup_lt_is_Some_2 pr dof) as [cur Hcur]; [lia|].
    unfold array_get. rewrite Hcur. simpl.
    rewrite bool_decide_eq_false_2; [done|].
    pose proof (Forall_lookup_1 _ _ _ _ Hlow Hcur) as Hle. simpl in Hle. lia. }
  simpl. by apply IH.
Qed.

(** *** All behaviors, in declaration order *)

Lemma place_bids_app (xs ys : list (option bid)) (acc : holders) :
  place_bids (xs ++ ys) acc = (acc' ←! place_bids xs acc; place_bids ys acc').
Proof. apply for_each_app. Qed.

Lemma place_bids_well_formed (obs : list (option bid)) (acc acc' : holders) :
  well_formed acc → place_bids obs acc = Done acc' → well_formed acc'.
Proof.
  apply (for_each_invariant well_formed).
  intros s x s' _. apply place_bid_well_formed.
Qed.

Lemma place_bids_non_negative (obs : list (option bid)) (acc acc' : holders) :
  non_negative acc → place_bids obs acc = Done acc' → non_negative acc'.
Proof.
  apply (for_each_invariant non_negative).
  intros s x s' _. apply place_bid_non_negative.
Qed.

Lemma place_bids_total (obs : list (option bid)) (acc : holders) :
  well_formed acc → bids_in_range obs → ∃ acc', place_bids obs acc = Done acc'.
Proof.
  revert acc. induction obs as [|ob obs IH]; intros acc Hwf Hr; [by eexists|].
  apply Forall_cons in Hr as [Hob Hr]. unfold place_bids. simpl.
  assert (∃ acc1, place_bid acc ob = Done acc1) as [acc1 H1].
  { destruct ob as [b|]; [|by eexists]. apply place_bid_total; [done|]. by apply Hob. }
  rewrite H1. simpl. apply IH; [|done]. by eapply place_bid_well_formed.
Qed.

(** Where the content of a DOF comes from: it is what it was, or some
    bid claimed the DOF with a strictly greater priority, which is now
    the recorded one, and the command is that bid's value. *)
Lemma place_bids_origin (obs : list (option bid)) (acc acc' : holders)
    (d : nat) (v : float) (q : Z) :
  well_formed acc → place_bids obs acc = Done acc' → slot acc d v q →
  ∃ v' q', slot acc' d v' q'
    ∧ ((v' = v ∧ q' = q)
       ∨ ((q < q')%Z
          ∧ ∃ b, Some b ∈ obs ∧ d ∈ bid_dofs b ∧ bid_priority b = q'
                 ∧ bid_array b !! d = Some v')).
Proof.
  revert acc v q. induction obs as [|ob obs IH]; intros acc v q Hwf Hd Hs.
  - injection Hd as <-. exists v, q. split; [done|]. by left.
  - unfold place_bids in Hd. simpl in Hd.
    apply rbind_Done in Hd as (acc1 & H1 & Hrest).
    pose proof (place_bid_well_formed _ _ _ Hwf H1) as Hwf1.
    assert (∃ v1 q1, slot acc1 d v1 q1
              ∧ ((v1 = v ∧ q1 = q)
                 ∨ ((q < q1)%Z ∧ ∃ b, ob = Some b ∧ d ∈ bid_dofs b
                      ∧ bid_priority b = q1 ∧ bid_array b !! d = Some v1)))
      as (v1 & q1 & Hs1 & Hfrom1).
    { destruct ob as [b|]; [|injection H1 as <-; exists v, q; split; [done|by left]].
      destruct (place_bid_Done b acc acc1 Hwf H1) as [_ Hb].
      destruct (Hb d v q Hs) as [Hwin Hkeep].
      destruct (decide (d ∈ bid_dofs b ∧ (q < bid_priority b)%Z)) as [[Hin Hlt]|Hno].
      - destruct (Hwin Hin Hlt) as (v' & Hv' & Hs').
        exists v', (bid_priority b). split; [done|]. right. split; [done|].
        by exists b.
      - exists v, q. split; [|by left]. apply Hkeep.
        destruct (decide (d ∈ bid_dofs b)); [right|by left].
        destruct (decide (q < bid_priority b)%Z); [|lia].
        exfalso. by apply Hno. }
    destruct (IH acc1 v1 q1 Hwf1 Hrest Hs1) as (v' & q' & Hs' & Hfrom).
    exists v', q'. split; [done|].
    destruct Hfrom as [[-> ->]|(Hlt & b & Hb & Hin & Hp & Hv)].
    + destruct Hfrom1 as [?|(Hlt1 & b & -> & Hin & Hp & Hv)]; [by left|].
      right. split; [done|]. exists b. repeat split; try done. by left.
    + right. split.
      * destruct Hfrom1 as [[_ ->]|[Hlt1 _]]; lia.
      * exists b. repeat split; try done. by right.
Qed.

(** Bids that do not exceed the recorded priority of a DOF leave it. *)
Lemma place_bids_keep (obs : list (option bid)) (acc acc' : holders)
    (d : nat) (v : float) (q : Z) :
  well_formed acc → place_bids obs acc = Done acc' → slot acc d v q →
  (∀ ob p, ob ∈ obs → claims d p ob → (p ≤ q)%Z) →
  slot acc' d v q.
Proof.
  intros Hwf Hd Hs Hle.
  destruct (place_bids_origin _ _ _ _ _ _ Hwf Hd Hs)
    as (v' & q' & Hs' & [[-> ->]|(Hlt & b & Hb & Hin & Hp & _)]); [done|].
  assert (q' ≤ q)%Z; [|lia].
  apply (Hle (Some b) q' Hb). by exists b.
Qed.

(** Bids below [p] leave the recorded priority of a DOF below [p]. *)
Lemma place_bids_below (obs : list (option bid)) (acc acc' : holders)
    (d : nat) (v : float) (q p : Z) :
  well_formed acc → place_bids obs acc = Done acc' → slot acc d v q →
  (q < p)%Z →
  (∀ ob p', ob ∈ obs → claims d p' ob → (p' < p)%Z) →
  ∃ v' q', slot acc' d v' q' ∧ (q' < p)%Z.
Proof.
  intros Hwf Hd Hs Hq Hlt.
  destruct (place_bids_origin _ _ _ _ _ _ Hwf Hd Hs)
    as (v' & q' & Hs' & [[-> ->]|(_ & b & Hb & Hin & Hp & _)]).
  - by exists v, q.
  - exists v', q'. split; [done|]. apply (Hlt (Some b) q' Hb). by exists b.
Qed.

(** The first bid of the highest priority wins the DOF: a bid that
    claims [d] above the recorded priority, with every earlier claim
    strictly lower and every later claim not higher, ends up in the
    slot. *)
Lemma place_bids_winner (pre post : list (option bid)) (b : bid)
    (acc acc' : holders) (d : nat) (v : float) (q : Z) :
  well_formed acc →
  place_bids (pre ++ Some b :: post) acc = Done acc' →
  slot acc d v q →
  d ∈ bid_dofs b →
  (q < bid_priority b)%Z →
  (∀ ob p, ob ∈ pre → claims d p ob → (p < bid_priority b)%Z) →
  (∀ ob p, ob ∈ post → claims d p ob → (p ≤ bid_priority b)%Z) →
  ∃ v', bid_array b !! d = Some v' ∧ slot acc' d v' (bid_priority b).
Proof.
  intros Hwf Hd Hs Hin Hq Hpre Hpost.
  rewrite place_bids_app in Hd.
  apply rbind_Done in Hd as (acc1 & H1 & Hd).
  unfold place_bids in Hd. simpl in Hd.
  apply rbind_Done in Hd as (acc2 & H2 & H3).
  pose proof (place_bids_well_formed _ _ _ Hwf H1) as Hwf1.
  destruct (place_bids_below _ _ _ _ _ _ _ Hwf H1 Hs Hq Hpre)
    as (v1 & q1 & Hs1 & Hq1).
  destruct (place_bid_Done b acc1 acc2 Hwf1 H2) as [Hwf2 Hb].
  destruct (Hb d v1 q1 Hs1) as [Hwin _].
  destruct (Hwin Hin Hq1) as (v' & Hv' & Hs2).
  exists v'. split; [done|].
  by apply (place_bids_keep post acc2 acc' d v' _ Hwf2 H3 Hs2).
Qed.

(** A container without a bid, or with a bid of priority at most zero,
    can be taken out of the list without changing the arrays. *)
Lemma place_bids_without_None (pre post : list (option bid)) (acc : holders) :
  place_bids (pre ++ None :: post) acc = place_bids (pre ++ post) acc.
Proof.
  rewrite !place_bids_app.
  destruct (place_bids pre acc) as [acc1|]; simpl; done.
Qed.

Lemma place_bids_without_low (pre post : list (option bid)) (b : bid)
    (acc : holders) :
  well_formed acc → non_negative acc → bid_in_range b →
  (bid_priority b ≤ 0)%Z →
  place_bids (pre ++ Some b :: post) acc = place_bids (pre ++ post) acc.
Proof.
  intros Hwf Hnn Hr Hp. rewrite !place_bids_app.
  destruct (place_bids pre acc) as [acc1|] eqn:H1; simpl; [|done].
  change (place_bids (Some b :: post) acc1)
    with (acc2 ←! place_bid acc1 (Some b); place_bids post acc2).
  rewrite (place_bid_low b acc1); [done|by eapply place_bids_well_formed|done|].
  pose proof (place_bids_non_negative _ _ _ Hnn H1) as Hnn1.
  eapply Forall_impl; [exact Hnn1|]. simpl. intros. lia.
Qed.

End arbitration.

(** ** Startup *)

Lemma initialize_Done (sm : StateMachine) :
  m_states sm ≠ [] →
  ∃ s, initialize sm = Done {| m_states := m_states sm; m_active_state := s |}
       ∧ s ∈ m_states sm.
Proof.
  intros Hne. unfold initialize.
  destruct (find _ (m_states sm)) as [s|] eqn:Hfind.
  - exists s. split; [done|]. apply find_some in Hfind as [Hin _].
    by apply list_elem_of_In.
  - destruct (m_states sm) as [|s l]; [done|]. exists s. split; [done|]. by left.
Qed.

(** C4. On a non-empty declared list [initialize] completes, keeps the
    list and makes active the first declared state whose [initial] flag is
    set; when no declared state has the flag, the first declared state. *)
Theorem initialize_selects (sm : StateMachine) :
  m_states sm ≠ [] →
  ∃ s, initialize sm = Done {| m_states := m_states sm; m_active_state := s |}
       ∧ (first_such initial (m_states sm) s
          ∨ (Forall (λ t, initial t = false) (m_states sm)
             ∧ head (m_states sm) = Some s)).
Proof.
  intros Hne. unfold initialize.
  destruct (find _ (m_states sm)) as [s|] eqn:Hfind.
  - exists s. split; [done|]. left. by apply find_Some_first.
  - apply find_None_Forall in Hfind.
    destruct (m_states sm) as [|s l] eqn:E; [done|].
    exists s. split; [done|]. by right.
Qed.

(** C5, the code at the failing input. [initialize] has no check of its
    own: on an empty declared list it falls through to [m_states.front()],
    the front of an empty vector, which is outside defined behaviour and is
    neither an error return nor an exception; that is the only input on
    which it does not complete. *)
Theorem initialize_Undefined_iff_empty (sm : StateMachine) :
  initialize sm = Undefined ↔ m_states sm = [].
Proof.
  split.
  - intros Hu. destruct (m_states sm) as [|s l] eqn:E; [done|]. exfalso.
    destruct (initialize_Done sm) as (s' & Hs' & _); [by rewrite E|].
    congruence.
  - intros E. unfold initialize. by rewrite E.
Qed.

(** ** The tick *)

Section tick.
Context `{Dictionary} {B : Type} `{!BehaviorBase B}.

(** With feedback and a declared active mode, a tick places the bids of
    the containers in declaration order and publishes the merged array. *)
Lemma f_iterate_tick (now : Time) (h : Helm) (pv : ControlProcess)
    (am : mvp_control.ControlMode) :
  m_controller_process_values h = Some pv →
  active_mode_of h = Some am →
  f_iterate now h =
    (acc ←! place_bids (tick_bid h pv am <$> m_behavior_containers h)
              (dof_ctrl_new, dof_priority_new);
     Done (with_containers h (consulted (active_dofs am) pv <$> m_behavior_containers h),
           [publish (set_point_msg now (get_active_state (m_state_machine h)) acc.1)])).
Proof.
  intros Hpv Ham. unfold f_iterate. rewrite Hpv.
  unfold active_mode_of in Ham. rewrite Ham.
  rewrite iterate_behaviors_bids.
  change (bid_of (get_active_state (m_state_machine h)) (map IDX (mvp_control.dofs am)) pv)
    with (tick_bid h pv am).
  unfold with_containers. rewrite Hpv.
  destruct (place_bids _ _) as [[c q]|]; simpl; done.
Qed.

Lemma place_bids_publishes (now : Time) (h : Helm) (pv : ControlProcess)
    (am : mvp_control.ControlMode) (acc : holders) :
  m_controller_process_values h = Some pv →
  active_mode_of h = Some am →
  place_bids (tick_bid h pv am <$> m_behavior_containers h)
    (dof_ctrl_new, dof_priority_new) = Done acc →
  publishes now h pv am acc.1.
Proof.
  intros Hpv Ham Hacc.
  exists (consulted (active_dofs am) pv <$> m_behavior_containers h), acc.2. split.
  - rewrite iterate_behaviors_bids.
    change (bid_of (get_active_state (m_state_machine h)) (active_dofs am) pv)
      with (tick_bid h pv am).
    rewrite Hacc. simpl. by destruct acc.
  - by rewrite (f_iterate_tick now h pv am Hpv Ham), Hacc.
Qed.

Lemma tick_bids_in_range (h : Helm) (pv : ControlProcess) (am : mvp_control.ControlMode) :
  tick_in_range h pv am →
  bids_in_range (tick_bid h pv am <$> m_behavior_containers h).
Proof.
  unfold tick_in_range, bids_in_range. intros Hr. by apply Forall_fmap.
Qed.

Lemma tick_claims (h : Helm) (pv : ControlProcess) (am : mvp_control.ControlMode)
    (cs : list (BehaviorContainer B)) (d : nat) (p bound : Z) (ob : option bid)
    (R : Z → Z → Prop) :
  (∀ j bj, j ∈ cs → tick_bid h pv am j = Some bj → d ∈ bid_dofs bj →
           R (bid_priority bj) bound) →
  ob ∈ tick_bid h pv am <$> cs → claims d p ob → R p bound.
Proof.
  intros Hcs (j & -> & Hj)%list_elem_of_fmap (bj & Hbj & Hd & <-).
  by apply (Hcs j bj).
Qed.

(** The first-declared bid of the highest priority on a DOF is what the
    tick publishes for that DOF, provided that priority is positive. *)
Lemma tick_winner (now : Time) (h : Helm) (pv : ControlProcess)
    (am : mvp_control.ControlMode) (pre post : list (BehaviorContainer B))
    (i : BehaviorContainer B) (b : bid) (d : nat) :
  m_controller_process_values h = Some pv →
  active_mode_of h = Some am →
  m_behavior_containers h = pre ++ i :: post →
  tick_in_range h pv am →
  tick_bid h pv am i = Some b →
  d ∈ bid_dofs b →
  (0 < bid_priority b)%Z →
  (∀ j bj, j ∈ pre → tick_bid h pv am j = Some bj → d ∈ bid_dofs bj →
           (bid_priority bj < bid_priority b)%Z) →
  (∀ j bj, j ∈ post → tick_bid h pv am j = Some bj → d ∈ bid_dofs bj →
           (bid_priority bj ≤ bid_priority b)%Z) →
  ∃ dof_ctrl v,
    publishes now h pv am dof_ctrl ∧ bid_array b !! d = Some v ∧ dof_ctrl !! d = Some v.
Proof.
  intros Hpv Ham Hcs Hr Hb Hd Hpos Hpre Hpost.
  pose proof (tick_bids_in_range h pv am Hr) as Hrange.
  destruct (place_bids_total _ _ well_formed_new Hrange) as [acc' Hacc].
  assert (d < CONTROLLABLE_DOF_LENGTH) as Hlt.
  { unfold tick_in_range in Hr. rewrite Hcs in Hr.
    apply Forall_app in Hr as [_ [Hi _]%Forall_cons].
    specialize (Hi b Hb). unfold bid_in_range in Hi.
    rewrite Forall_forall in Hi. by destruct (Hi d Hd). }
  pose proof Hacc as Hsplit.
  rewrite Hcs, fmap_app, fmap_cons, Hb in Hsplit.
  destruct (place_bids_winner _ _ b _ acc' d _ _ well_formed_new Hsplit (slot_new d Hlt)
              Hd Hpos) as (v & Hv & [Hc _]).
  - intros ob p. by apply tick_claims.
  - intros ob p. by apply tick_claims.
  - exists acc'.1, v. split; [|done]. by apply place_bids_publishes.
Qed.

(** A tick with feedback, a declared active mode and claimed DOFs that
    are valid indices completes and publishes exactly one command. *)
Lemma tick_publishes (now : Time) (h : Helm) (pv : ControlProcess)
    (am : mvp_control.ControlMode) :
  m_controller_process_values h = Some pv →
  active_mode_of h = Some am →
  tick_in_range h pv am →
  ∃ dof_ctrl, publishes now h pv am dof_ctrl.
Proof.
  intros Hpv Ham Hr.
  destruct (place_bids_total _ _ well_formed_new (tick_bids_in_range h pv am Hr))
    as [acc Hacc].
  exists acc.1. by apply place_bids_publishes.
Qed.

Lemma with_containers_tick (now : Time) (h : Helm) (cs1 cs2 : list (BehaviorContainer B)) :
  m_behavior_containers h = cs1 →
  (∀ pv am,
     m_controller_process_values h = Some pv → active_mode_of h = Some am →
     place_bids (tick_bid h pv am <$> cs1) (dof_ctrl_new, dof_priority_new) =
     place_bids (tick_bid h pv am <$> cs2) (dof_ctrl_new, dof_priority_new)) →
  effects (f_iterate now h) = effects (f_iterate now (with_containers h cs2)).
Proof.
  intros Hcs Hsame.
  destruct (m_controller_process_values h) as [pv|] eqn:Hpv.
  - destruct (active_mode_of h) as [am|] eqn:Ham.
    + rewrite (f_iterate_tick now h pv am Hpv Ham).
      rewrite (f_iterate_tick now (with_containers h cs2) pv am); [|done..].
      rewrite Hcs. specialize (Hsame pv am eq_refl eq_refl).
      change (tick_bid (with_containers h cs2) pv am) with (tick_bid h pv am).
      simpl. rewrite Hsame.
      destruct (place_bids (tick_bid h pv am <$> cs2) _) as [acc|]; simpl; done.
    + unfold f_iterate. simpl. rewrite Hpv.
      unfold active_mode_of in Ham. by rewrite Ham.
  - unfold f_iterate. simpl. by rewrite Hpv.
Qed.

(** C1, as amended. An eligible behavior that claims DOF [d] with a
    strictly positive priority, strictly higher than the priority of every
    other eligible behavior claiming [d], has its proposal at [d] in the
    published command, in whatever order the behaviors were declared: the
    declared list may be any arrangement of that behavior and its rivals. *)
Theorem strict_priority_wins (now : Time) (h : Helm) (pv : ControlProcess)
    (am : mvp_control.ControlMode) (i : BehaviorContainer B)
    (rivals : list (BehaviorContainer B)) (b : bid) (d : nat) :
  m_controller_process_values h = Some pv →
  active_mode_of h = Some am →
  m_behavior_containers h ≡ₚ i :: rivals →
  tick_in_range h pv am →
  tick_bid h pv am i = Some b →
  d ∈ bid_dofs b →
  (0 < bid_priority b)%Z →
  (∀ j bj, j ∈ rivals → tick_bid h pv am j = Some bj → d ∈ bid_dofs bj →
           (bid_priority bj < bid_priority b)%Z) →
  ∃ dof_ctrl v,
    publishes now h pv am dof_ctrl ∧ bid_array b !! d = Some v ∧ dof_ctrl !! d = Some v.
Proof.
  intros Hpv Ham Hperm Hr Hb Hd Hpos Hrivals.
  assert (i ∈ m_behavior_containers h) as Hin by (rewrite Hperm; by left).
  apply list_elem_of_split in Hin as (pre & post & Hcs).
  assert (rivals ≡ₚ pre ++ post) as Hrest.
  { apply (Permutation_cons_app_inv _ _ (a:=i)). by rewrite <- Hperm, Hcs. }
  apply (tick_winner now h pv am pre post i b d); try done.
  - intros j bj Hj. apply Hrivals. rewrite Hrest. apply elem_of_app. by left.
  - intros j bj Hj Hbj Hdj. apply Z.lt_le_incl. apply (Hrivals j bj); [|done..].
    rewrite Hrest. apply elem_of_app. by right.
Qed.

(** C2, as amended. Among the eligible behaviors that claim DOF [d] with
    the highest priority, when that priority is strictly positive, the one
    declared first has its proposal at [d] in the published command: every
    behavior declared before it bids strictly lower on [d], and no behavior
    declared after it, bidding the same or lower, overwrites it. The result
    is a function of the declared order, the priorities and the proposals. *)
Theorem first_declared_wins_ties (now : Time) (h : Helm) (pv : ControlProcess)
    (am : mvp_control.ControlMode) (pre post : list (BehaviorContainer B))
    (i : BehaviorContainer B) (b : bid) (d : nat) :
  m_controller_process_values h = Some pv →
  active_mode_of h = Some am →
  m_behavior_containers h = pre ++ i :: post →
  tick_in_range h pv am →
  tick_bid h pv am i = Some b →
  d ∈ bid_dofs b →
  (0 < bid_priority b)%Z →
  (∀ j bj, j ∈ pre → tick_bid h pv am j = Some bj → d ∈ bid_dofs bj →
           (bid_priority bj < bid_priority b)%Z) →
  (∀ j bj, j ∈ post → tick_bid h pv am j = Some bj → d ∈ bid_dofs bj →
           (bid_priority bj ≤ bid_priority b)%Z) →
  ∃ dof_ctrl v,
    publishes now h pv am dof_ctrl ∧ bid_array b !! d = Some v ∧ dof_ctrl !! d = Some v.
Proof. apply tick_winner. Qed.

(** C6. A tick without feedback returns at once: nothing is published
    or logged, the helm is unchanged and the call completes. A tick with
    feedback whose active state's mode is not in the cached mode table
    leaves the helm unchanged and its only effect is the throttled warning.
    A command is published only when feedback is present and the mode was
    found. *)
Theorem tick_preconditions (now : Time) (h : Helm) :
  (m_controller_process_values h = None → f_iterate now h = Done (h, []))
  ∧ (is_Some (m_controller_process_values h) → active_mode_of h = None →
       f_iterate now h =
         Done (h, [ROS_WARN_STREAM_THROTTLE 10
                     (mode_not_found (get_active_state (m_state_machine h)))]))
  ∧ (∀ h' evs msg, f_iterate now h = Done (h', evs) → publish msg ∈ evs →
       is_Some (m_controller_process_values h) ∧ is_Some (active_mode_of h)).
Proof.
  unfold f_iterate, active_mode_of. split; [|split].
  - by intros ->.
  - intros [pv ->] ->. done.
  - intros h' evs msg Hdone Hin.
    destruct (m_controller_process_values h) as [pv|].
    + split; [by eexists|].
      destruct (find _ _); [by eexists|].
      injection Hdone as <- <-. apply list_elem_of_singleton in Hin. discriminate.
    + injection Hdone as <- <-. by apply elem_of_nil in Hin.
Qed.

(** C7. A container whose options have no key for the active state's
    name leaves both scratch arrays as they were, whatever its behavior
    returned; the tick logs and publishes exactly what it would with that
    container taken out of the list. *)
Theorem state_gating (now : Time) (h : Helm) (pre post : list (BehaviorContainer B))
    (i : BehaviorContainer B) :
  states (m_opts i) !! name (get_active_state (m_state_machine h)) = None →
  m_behavior_containers h = pre ++ i :: post →
  (∀ dofs pv acc,
     iterate_behavior (get_active_state (m_state_machine h)) dofs pv i acc =
       Done (consulted dofs pv i, acc))
  ∧ effects (f_iterate now h) = effects (f_iterate now (with_containers h (pre ++ post))).
Proof.
  intros Hkey Hcs.
  assert (∀ dofs pv, bid_of (get_active_state (m_state_machine h)) dofs pv i = None)
    as Hnone.
  { intros dofs pv. unfold bid_of.
    destruct (consult dofs pv i) as [[ok set_point] b]. rewrite Hkey. by destruct ok. }
  split.
  - intros dofs pv acc. by rewrite iterate_behavior_bid, Hnone.
  - apply (with_containers_tick now h _ _ Hcs). intros pv am _ _.
    rewrite !fmap_app, fmap_cons. unfold tick_bid at 2. rewrite Hnone.
    apply place_bids_without_None.
Qed.

(** C9. A behavior whose priority for the active state is zero or
    negative changes nothing: the tick logs and publishes exactly what it
    would with that container taken out of the list. When the loop over the
    containers is done, every DOF holds either its initial zero command
    with recorded priority zero, or the proposal of an eligible behavior
    that claims it, with that behavior's strictly positive priority
    recorded. *)
Theorem non_positive_priority_never_wins (now : Time) (h : Helm) (pv : ControlProcess)
    (am : mvp_control.ControlMode) (pre post : list (BehaviorContainer B))
    (i : BehaviorContainer B) (b : bid) :
  m_controller_process_values h = Some pv →
  active_mode_of h = Some am →
  m_behavior_containers h = pre ++ i :: post →
  tick_bid h pv am i = Some b →
  bid_in_range b →
  (bid_priority b ≤ 0)%Z →
  effects (f_iterate now h) = effects (f_iterate now (with_containers h (pre ++ post)))
  ∧ ∀ cs' acc',
      iterate_behaviors (get_active_state (m_state_machine h)) (active_dofs am) pv
        (m_behavior_containers h) (dof_ctrl_new, dof_priority_new) = Done (cs', acc') →
      ∀ d v q, slot acc' d v q →
        (q = 0%Z ∧ v = 0%float)
        ∨ ((0 < q)%Z
           ∧ ∃ j bj, j ∈ m_behavior_containers h ∧ tick_bid h pv am j = Some bj
                     ∧ d ∈ bid_dofs bj ∧ bid_priority bj = q
                     ∧ bid_array bj !! d = Some v).
Proof.
  intros Hpv Ham Hcs Hb Hr Hp. split.
  - apply (with_containers_tick now h _ _ Hcs). intros pv' am' Hpv' Ham'.
    assert (pv' = pv) as -> by congruence. assert (am' = am) as -> by congruence.
    rewrite !fmap_app, fmap_cons, Hb.
    by apply place_bids_without_low;
      [apply well_formed_new | apply non_negative_new | |].
  - intros cs' acc'. rewrite iterate_behaviors_bids.
    intros (acc & Hacc & [= _ <-])%rbind_Done d v q Hs.
    pose proof (place_bids_well_formed _ _ _ well_formed_new Hacc) as Hwf.
    pose proof (slot_lt acc d v q Hwf Hs) as Hlt.
    destruct (place_bids_origin _ _ _ d _ _ well_formed_new Hacc (slot_new d Hlt))
      as (v' & q' & Hs' & Hfrom).
    destruct (slot_inj _ _ _ _ _ _ Hs Hs') as [-> ->].
    destruct Hfrom as [[-> ->]|(Hpos & bj & Hin & Hd & Hq & Hv)]; [by left|].
    right. split; [done|].
    apply list_elem_of_fmap in Hin as (j & Hj & Hjin).
    exists j, bj. by repeat split.
Qed.

(** C10. The arbitration never looks at the active mode's DOF list: the
    loop over the containers is the placing of their bids, and the list
    reaches a bid only through [set_active_dofs]. So a DOF claimed by the
    first-declared behavior of the highest, strictly positive priority on
    it is written into the published command also when it is not among the
    active mode's DOFs. *)
Theorem claimed_dof_outside_active_mode (now : Time) (h : Helm) (pv : ControlProcess)
    (am : mvp_control.ControlMode) (pre post : list (BehaviorContainer B))
    (i : BehaviorContainer B) (b : bid) (d : nat) :
  m_controller_process_values h = Some pv →
  active_mode_of h = Some am →
  d ∉ active_dofs am →
  m_behavior_containers h = pre ++ i :: post →
  tick_in_range h pv am →
  tick_bid h pv am i = Some b →
  d ∈ bid_dofs b →
  (0 < bid_priority b)%Z →
  (∀ j bj, j ∈ pre → tick_bid h pv am j = Some bj → d ∈ bid_dofs bj →
           (bid_priority bj < bid_priority b)%Z) →
  (∀ j bj, j ∈ post → tick_bid h pv am j = Some bj → d ∈ bid_dofs bj →
           (bid_priority bj ≤ bid_priority b)%Z) →
  (∃ dof_ctrl v,
     publishes now h pv am dof_ctrl ∧ bid_array b !! d = Some v ∧ dof_ctrl !! d = Some v)
  ∧ ∀ cs acc,
      iterate_behaviors (get_active_state (m_state_machine h)) (active_dofs am) pv cs acc =
        (acc' ←! place_bids (tick_bid h pv am <$> cs) acc;
         Done (consulted (active_dofs am) pv <$> cs, acc')).
Proof.
  intros Hpv Ham _ Hcs Hr Hb Hd Hpos Hpre Hpost. split.
  - by apply (tick_winner now h pv am pre post i b d).
  - intros cs acc. apply iterate_behaviors_bids.
Qed.

Lemma foldl_f_generate_sm_states (declared : list sm_state_t) (h : Helm (B:=B)) :
  foldl (λ (h : Helm (B:=B)) state, f_generate_sm_states state h) h declared =
    with_state_machine h
      {| m_states := m_states (m_state_machine h) ++ declared;
         m_active_state := m_active_state (m_state_machine h) |}.
Proof.
  revert h. induction declared as [|s l IH]; intros h; simpl.
  - rewrite app_nil_r. by destruct h as [? ? ? ? []].
  - rewrite IH. unfold with_state_machine. simpl. by rewrite <- app_assoc.
Qed.

(** C8, as amended. No code between the parser's callbacks and the tick
    loop looks at state names: whatever non-empty list of states is
    declared, with or without repeated names, [append_state] stores every
    one of them in order, [initialize] completes with one of them active,
    and a later [get_state] by name finds the first declared state of that
    name. *)
Theorem duplicate_names_are_kept (fresh : sm_state_t) (declared : list sm_state_t)
    (h : Helm (B:=B)) :
  declared ≠ [] →
  ∃ h', Helm_initialize_states fresh declared h = Done h'
        ∧ m_states (m_state_machine h') = declared
        ∧ m_active_state (m_state_machine h') ∈ declared
        ∧ ∀ nm state,
            (get_state nm state (m_state_machine h')).1 = true →
            first_such (λ val, String.eqb (name val) nm) declared
              (get_state nm state (m_state_machine h')).2.
Proof.
  intros Hne. unfold Helm_initialize_states.
  rewrite foldl_f_generate_sm_states. simpl.
  destruct (initialize_Done {| m_states := declared; m_active_state := fresh |})
    as (s & Hs & Hin); [done|].
  rewrite Hs. simpl. eexists. split; [done|]. simpl. repeat split; [done|].
  intros nm state. unfold get_state. simpl.
  destruct (find _ declared) as [t|] eqn:Hfind; simpl; [|discriminate].
  intros _. by apply find_Some_first.
Qed.

End tick.

(** ** The properties on the sample mission *)

Import Sample.

Lemma strict_priority_wins_witness :
  ∃ dof_ctrl v,
    publishes at_3 helm_three feedback flight dof_ctrl
    ∧ bid_array bid_depth !! DOF_PITCH = Some v ∧ dof_ctrl !! DOF_PITCH = Some v.
Proof.
  apply (strict_priority_wins at_3 helm_three feedback flight depth [level; trim]
           bid_depth DOF_PITCH).
  - reflexivity.
  - reflexivity.
  - apply perm_swap.
  - in_range.
  - reflexivity.
  - by left.
  - simpl. lia.
  - intros j bj Hj Hbj _.
    apply elem_of_cons in Hj as [->|Hj];
      [|apply elem_of_cons in Hj as [->|Hj]; [|by apply elem_of_nil in Hj]];
      vm_compute in Hbj; simplify_eq; simpl; lia.
Defined.

(** C1 as stated fails: [zero] and [negative] are both eligible and both
    claim pitch, with priorities 0 and -1; the published pitch is the
    initial zero, not 1.5, the proposal of the one with the higher
    priority. *)
Lemma strict_priority_fails_at_zero :
  tick_bid helm_low feedback flight zero = Some bid_zero
  ∧ tick_bid helm_low feedback flight negative = Some bid_negative
  ∧ DOF_PITCH ∈ bid_dofs bid_zero ∧ DOF_PITCH ∈ bid_dofs bid_negative
  ∧ (bid_priority bid_negative < bid_priority bid_zero)%Z
  ∧ effects (f_iterate at_3 helm_low) = Done [publish (all_zero 3)]
  ∧ values (all_zero 3) !! DOF_PITCH ≠ bid_array bid_zero !! DOF_PITCH.
Proof.
  repeat split; try reflexivity; try (by left).
  intros Heq. float_differ Heq.
Qed.

Lemma first_declared_wins_ties_witness :
  ∃ dof_ctrl v,
    publishes at_3 helm_ties feedback flight dof_ctrl
    ∧ bid_array bid_level !! DOF_PITCH = Some v ∧ dof_ctrl !! DOF_PITCH = Some v.
Proof.
  apply (first_declared_wins_ties at_3 helm_ties feedback flight [zero] [trim; surface]
           level bid_level DOF_PITCH).
  - reflexivity.
  - reflexivity.
  - reflexivity.
  - in_range.
  - reflexivity.
  - by left.
  - simpl. lia.
  - intros j bj Hj Hbj _.
    apply elem_of_cons in Hj as [->|Hj]; [|by apply elem_of_nil in Hj].
    vm_compute in Hbj. simplify_eq. simpl. lia.
  - intros j bj Hj Hbj _.
    apply elem_of_cons in Hj as [->|Hj];
      [|apply elem_of_cons in Hj as [->|Hj]; [|by apply elem_of_nil in Hj]];
      vm_compute in Hbj; simplify_eq; simpl; lia.
Defined.

(** C2 as stated fails: [zero] and [zero_too] are eligible, claim pitch
    and have the same priority, 0; the published pitch is the initial
    zero, not 1.5, the proposal of the first declared. *)
Lemma first_declared_loses_at_zero :
  m_behavior_containers helm_zeros = [zero; zero_too]
  ∧ tick_bid helm_zeros feedback flight zero = Some bid_zero
  ∧ tick_bid helm_zeros feedback flight zero_too = Some bid_zero_too
  ∧ DOF_PITCH ∈ bid_dofs bid_zero ∧ DOF_PITCH ∈ bid_dofs bid_zero_too
  ∧ bid_priority bid_zero = bid_priority bid_zero_too
  ∧ effects (f_iterate at_3 helm_zeros) = Done [publish (all_zero 3)]
  ∧ values (all_zero 3) !! DOF_PITCH ≠ bid_array bid_zero !! DOF_PITCH.
Proof.
  repeat split; try reflexivity; try (by left).
  intros Heq. float_differ Heq.
Qed.

Lemma initialize_selects_witness :
  ∃ s, initialize {| m_states := [state_B; state_A; state_C]; m_active_state := no_state |}
         = Done {| m_states := [state_B; state_A; state_C]; m_active_state := s |}
       ∧ (first_such initial [state_B; state_A; state_C] s
          ∨ (Forall (λ t, initial t = false) [state_B; state_A; state_C]
             ∧ head [state_B; state_A; state_C] = Some s)).
Proof.
  apply (initialize_selects
           {| m_states := [state_B; state_A; state_C]; m_active_state := no_state |}).
  simpl. discriminate.
Defined.

Lemma state_gating_witness :
  (∀ dofs pv acc,
     iterate_behavior (get_active_state (m_state_machine helm_gated)) dofs pv surface acc =
       Done (consulted dofs pv surface, acc))
  ∧ effects (f_iterate at_3 helm_gated) =
      effects (f_iterate at_3 (with_containers helm_gated ([level] ++ [depth]))).
Proof.
  apply (state_gating at_3 helm_gated [level] [depth] surface).
  - reflexivity.
  - reflexivity.
Defined.

Lemma non_positive_priority_never_wins_witness :
  effects (f_iterate at_3 helm_zero_first) =
    effects (f_iterate at_3 (with_containers helm_zero_first ([] ++ [level])))
  ∧ ∀ cs' acc',
      iterate_behaviors (get_active_state (m_state_machine helm_zero_first))
        (active_dofs flight) feedback (m_behavior_containers helm_zero_first)
        (dof_ctrl_new, dof_priority_new) = Done (cs', acc') →
      ∀ d v q, slot acc' d v q →
        (q = 0%Z ∧ v = 0%float)
        ∨ ((0 < q)%Z
           ∧ ∃ j bj, j ∈ m_behavior_containers helm_zero_first
                     ∧ tick_bid helm_zero_first feedback flight j = Some bj
                     ∧ d ∈ bid_dofs bj ∧ bid_priority bj = q
                     ∧ bid_array bj !! d = Some v).
Proof.
  apply (non_positive_priority_never_wins at_3 helm_zero_first feedback flight [] [level]
           zero bid_zero).
  - reflexivity.
  - reflexivity.
  - reflexivity.
  - reflexivity.
  - in_range.
  - simpl. lia.
Defined.

Lemma claimed_dof_outside_active_mode_witness :
  (DOF_Z ∉ active_dofs flight)
  ∧ ∃ dof_ctrl v,
      publishes at_3 helm_gated feedback flight dof_ctrl
      ∧ bid_array bid_depth !! DOF_Z = Some v ∧ dof_ctrl !! DOF_Z = Some v.
Proof.
  assert (DOF_Z ∉ active_dofs flight) as Hout.
  { intros Hin. vm_compute in Hin.
    apply elem_of_cons in Hin as [Hin|Hin]; [discriminate|].
    apply elem_of_cons in Hin as [Hin|Hin]; [discriminate|].
    by apply elem_of_nil in Hin. }
  split; [exact Hout|].
  apply (claimed_dof_outside_active_mode at_3 helm_gated feedback flight [level; surface] []
           depth bid_depth DOF_Z).
  - reflexivity.
  - reflexivity.
  - exact Hout.
  - reflexivity.
  - in_range.
  - reflexivity.
  - right. by left.
  - simpl. lia.
  - intros j bj Hj Hbj Hd.
    apply elem_of_cons in Hj as [->|Hj];
      [|apply elem_of_cons in Hj as [->|Hj]; [|by apply elem_of_nil in Hj]];
      vm_compute in Hbj; simplify_eq; simpl; lia.
  - intros j bj Hj. by apply elem_of_nil in Hj.
Defined.

Lemma duplicate_names_are_kept_witness :
  ∃ h', Helm_initialize_states no_state [state_A; state_A_again; state_B] helm_new = Done h'
        ∧ m_states (m_state_machine h') = [state_A; state_A_again; state_B]
        ∧ m_active_state (m_state_machine h') ∈ [state_A; state_A_again; state_B]
        ∧ ∀ nm state,
            (get_state nm state (m_state_machine h')).1 = true →
            first_such (λ val, String.eqb (name val) nm)
              [state_A; state_A_again; state_B]
              (get_state nm state (m_state_machine h')).2.
Proof.
  apply (duplicate_names_are_kept no_state [state_A; state_A_again; state_B] helm_new).
  discriminate.
Defined.

(** C8 as stated fails: two declared states are named "A", and the
    startup of the state machine completes, with the first of them
    active. *)
Lemma duplicate_names_not_fatal :
  (¬ NoDup (name <$> [state_A; state_A_again]))
  ∧ Helm_initialize_states no_state [state_A; state_A_again] helm_new =
      Done (with_state_machine helm_new
              {| m_states := [state_A; state_A_again]; m_active_state := state_A |}).
Proof.
  split; [|reflexivity].
  intros Hnd. apply NoDup_cons in Hnd as [Hnot _]. apply Hnot. by left.
Qed.

(** ** The scenarios of the specification *)

(** From A, which allows B, the transition to B succeeds; asked again
    from B, which allows only A, it fails and B stays active. *)
Example translate_A_B_then_B :
  translate_to "B" (machine_at state_A) = (true, machine_at state_B)
  ∧ translate_to "B" (machine_at state_B) = (false, machine_at state_B).
Proof. split; reflexivity. Qed.

(** A declared state that the active state does not list is refused, and
    so is a listed name that no declared state carries. *)
Example translate_refused :
  translate_to "C" (machine_at state_A) = (false, machine_at state_A)
  ∧ translate_to "B" {| m_states := [state_A]; m_active_state := state_A |}
    = (false, {| m_states := [state_A]; m_active_state := state_A |}).
Proof. split; reflexivity. Qed.

(** No declared state: [initialize] reads the front of an empty vector. *)
Example initialize_no_state :
  initialize {| m_states := []; m_active_state := no_state |} = Undefined.
Proof. reflexivity. Qed.

(** No state marked initial: the first declared one becomes active. *)
Example initialize_fallback :
  initialize {| m_states := [state_B; state_C]; m_active_state := no_state |}
  = Done {| m_states := [state_B; state_C]; m_active_state := state_B |}.
Proof. reflexivity. Qed.

(** Priorities 5 and 10 on pitch: the tick publishes the pitch of the
    behavior with priority 10, wherever it stands in the list; the depth it
    also claims is published although the active mode controls neither. *)
Example tick_priorities :
  effects (f_iterate at_3 (helm_with (Some feedback) state_A [level; depth]))
  = Done [publish {| values := [0; 0; 3.5; 0; 0.25; 0]%float;
                     control_mode := "flight"; stamp := 3 |}]
  ∧ effects (f_iterate at_3 (helm_with (Some feedback) state_A [depth; level]))
    = Done [publish {| values := [0; 0; 3.5; 0; 0.25; 0]%float;
                       control_mode := "flight"; stamp := 3 |}].
Proof. split; reflexivity. Qed.

(** Equal priorities on pitch: the first declared wins, either way round. *)
Example tick_ties :
  effects (f_iterate at_3 (helm_with (Some feedback) state_A [level; trim]))
  = Done [publish {| values := [0; 0; 0; 0; 0.5; 0]%float;
                     control_mode := "flight"; stamp := 3 |}]
  ∧ effects (f_iterate at_3 (helm_with (Some feedback) state_A [trim; level]))
    = Done [publish {| values := [0; 0; 0; 0; 0.75; 0]%float;
                       control_mode := "flight"; stamp := 3 |}].
Proof. split; reflexivity. Qed.

(** Feedback never received: the tick returns with nothing published.
    An active state whose mode the controller did not declare: only the
    warning. *)
Example tick_skipped :
  f_iterate at_3 (helm_with None state_A [level; depth])
  = Done (helm_with None state_A [level; depth], [])
  ∧ effects (f_iterate at_3 (helm_with (Some feedback) state_C [level; depth]))
    = Done [ROS_WARN_STREAM_THROTTLE 10
              "Active mode 'unknown' can not be found in low level controller configuration! Helm is skipping."].
Proof. split; reflexivity. Qed.

(** A claimed DOF that is not an index of the arrays leaves defined
    behaviour. *)
Example tick_out_of_range :
  f_iterate at_3
    (helm_with (Some feedback) state_A
       [container [6] true [0; 0; 0; 0; 0; 0]%float {[ "A" := 1%Z ]}])
  = Undefined.
Proof. reflexivity. Qed.

(** * Further properties of the code *)

(** ** sm.cpp: lookups and sequences of calls *)

Lemma find_app_first {A : Type} (f : A → bool) (l1 l2 : list A) :
  find f (l1 ++ l2) = match find f l1 with Some x => Some x | None => find f l2 end.
Proof.
  induction l1 as [|x l1 IH]; simpl; [done|]. by destruct (f x).
Qed.

(** X1. [get_state] returns true exactly when a declared state carries
    the name; it then hands out the first declared state of that name, and
    otherwise leaves the caller's [*state] as it was. *)
Theorem get_state_lookup (nm : string) (state : sm_state_t) (sm : StateMachine) :
  let '(found, out) := get_state nm state sm in
  (found = true ↔ ∃ s, s ∈ m_states sm ∧ name s = nm)
  ∧ (found = true →
       name out = nm
       ∧ first_such (λ val, String.eqb (name val) nm) (m_states sm) out)
  ∧ (found = false → out = state).
Proof.
  unfold get_state.
  destruct (find _ (m_states sm)) as [s|] eqn:Hfind.
  - pose proof Hfind as Hfirst. apply find_Some_first in Hfirst.
    apply find_some in Hfind as [Hin Hn%string_eqb_true].
    apply list_elem_of_In in Hin.
    repeat split; eauto; done.
  - repeat split; try done.
    intros (s & Hin & Hn). apply list_elem_of_In in Hin.
    pose proof (find_none _ _ Hfind _ Hin) as Hf. simpl in Hf.
    apply (proj2 (string_eqb_true _ _)) in Hn. congruence.
Qed.

Lemma get_state_unique (s : sm_state_t) (state : sm_state_t) (l : list sm_state_t) :
  NoDup (name <$> l) → s ∈ l →
  find (λ val, String.eqb (name val) (name s)) l = Some s.
Proof.
  induction l as [|t l IH]; intros Hnd Hin; [by apply elem_of_nil in Hin|].
  rewrite fmap_cons in Hnd. apply NoDup_cons in Hnd as [Hnot Hnd]. simpl.
  apply elem_of_cons in Hin as [->|Hin].
  - by rewrite String.eqb_refl.
  - destruct (String.eqb (name t) (name s)) eqn:E; [|by apply IH].
    apply string_eqb_true in E. exfalso. apply Hnot. rewrite E.
    apply list_elem_of_fmap. by exists s.
Qed.

(** X2. When the declared names are pairwise different, every declared
    state is what [get_state] returns for its own name. *)
Theorem get_state_of_declared (s state : sm_state_t) (sm : StateMachine) :
  NoDup (name <$> m_states sm) → s ∈ m_states sm →
  get_state (name s) state sm = (true, s).
Proof.
  intros Hnd Hin. unfold get_state. by rewrite (get_state_unique s state).
Qed.

(** X3. Appending a state never changes what an earlier name resolves
    to: a lookup that succeeded returns the same state, and a name that was
    not declared resolves to the appended state exactly when that is its
    name. *)
Theorem append_state_get_state (s : sm_state_t) (nm : string) (state : sm_state_t)
    (sm : StateMachine) :
  get_state nm state (append_state s sm) =
    if (get_state nm state sm).1 then get_state nm state sm
    else if String.eqb (name s) nm then (true, s) else (false, state).
Proof.
  unfold get_state, append_state. simpl. rewrite find_app_first.
  destruct (find _ (m_states sm)); simpl; [done|].
  by destruct (String.eqb (name s) nm).
Qed.

Lemma translate_to_m_states (state_name : string) (sm : StateMachine) :
  m_states (translate_to state_name sm).2 = m_states sm.
Proof.
  unfold translate_to.
  destruct (find _ (transitions _)) as [t|]; [|done].
  by destruct (find _ (m_states sm)).
Qed.

Lemma translate_to_keeps_declared (state_name : string) (sm : StateMachine) :
  m_active_state sm ∈ m_states sm →
  m_active_state (translate_to state_name sm).2 ∈ m_states (translate_to state_name sm).2.
Proof.
  intros Hin. unfold translate_to.
  destruct (find _ (transitions _)) as [t|]; [|done].
  destruct (find _ (m_states sm)) as [target|] eqn:Hs; [|done]. simpl.
  apply find_some in Hs as [Hs _]. by apply list_elem_of_In.
Qed.

Lemma sm_do_invariant (sm : StateMachine) (c : sm_call) :
  m_active_state sm ∈ m_states sm →
  m_active_state (sm_do sm c) ∈ m_states (sm_do sm c)
  ∧ m_states sm `prefix_of` m_states (sm_do sm c).
Proof.
  intros Hin. destruct c as [state|state_name]; simpl.
  - split; [apply elem_of_app; by left | by apply prefix_app_r].
  - split; [by apply translate_to_keeps_declared|].
    by rewrite translate_to_m_states.
Qed.

Lemma sm_run_invariant (calls : list sm_call) (sm : StateMachine) :
  m_active_state sm ∈ m_states sm →
  m_active_state (sm_run calls sm) ∈ m_states (sm_run calls sm)
  ∧ m_states sm `prefix_of` m_states (sm_run calls sm).
Proof.
  revert sm. induction calls as [|c calls IH]; intros sm Hin; [done|].
  destruct (sm_do_invariant sm c Hin) as [Hin1 Hpre1].
  destruct (IH (sm_do sm c) Hin1) as [Hin2 Hpre2].
  split; [done|]. by etrans.
Qed.

(** X4. Once [initialize] has completed, the active state is a declared
    state after any sequence of [append_state] and [translate_to] calls,
    so [get_state] finds its name; the states declared at initialization
    stay where they were in the list. *)
Theorem active_state_stays_declared (sm sm0 : StateMachine) (calls : list sm_call)
    (state : sm_state_t) :
  initialize sm = Done sm0 →
  m_active_state (sm_run calls sm0) ∈ m_states (sm_run calls sm0)
  ∧ (get_state (name (m_active_state (sm_run calls sm0))) state (sm_run calls sm0)).1 = true
  ∧ m_states sm `prefix_of` m_states (sm_run calls sm0).
Proof.
  intros Hinit.
  assert (m_states sm ≠ []) as Hne.
  { intros E. unfold initialize in Hinit. by rewrite E in Hinit. }
  destruct (initialize_Done sm Hne) as (s & Hs & Hin).
  rewrite Hs in Hinit. injection Hinit as <-.
  destruct (sm_run_invariant calls {| m_states := m_states sm; m_active_state := s |})
    as [Hact Hpre]; [done|].
  split; [done|]. split; [|done].
  unfold get_state.
  destruct (find _ _) as [t|] eqn:Hfind; [done|]. exfalso.
  apply list_elem_of_In in Hact.
  pose proof (find_none _ _ Hfind _ Hact) as Hf. simpl in Hf.
  by rewrite String.eqb_refl in Hf.
Qed.

Lemma sm_run_translate_m_states (names : list string) (sm : StateMachine) :
  m_states (sm_run (call_translate_to <$> names) sm) = m_states sm.
Proof.
  revert sm. induction names as [|n names IH]; intros sm; [done|].
  rewrite fmap_cons.
  change (sm_run (call_translate_to n :: (call_translate_to <$> names)) sm)
    with (sm_run (call_translate_to <$> names) (sm_do sm (call_translate_to n))).
  rewrite IH. apply translate_to_m_states.
Qed.

Lemma initialize_reads_m_states (sm1 sm2 : StateMachine) :
  m_states sm1 = m_states sm2 → initialize sm1 = initialize sm2.
Proof. unfold initialize. by intros ->. Qed.

Lemma initialize_keeps_m_states (sm sm0 : StateMachine) :
  initialize sm = Done sm0 → m_states sm0 = m_states sm.
Proof.
  unfold initialize. destruct (find _ (m_states sm)) as [s|]; [by intros [= <-]|].
  destruct (m_states sm) as [|s l]; simpl; [discriminate|]. by intros [= <-].
Qed.

(** X5. [initialize] undoes transitions: after it has completed, calling
    it again, behind any sequence of [translate_to] calls, gives back the
    state machine it gave the first time. *)
Theorem initialize_after_transitions (sm sm0 : StateMachine) (names : list string) :
  initialize sm = Done sm0 →
  initialize (sm_run (call_translate_to <$> names) sm0) = Done sm0.
Proof.
  intros Hinit.
  rewrite (initialize_reads_m_states _ sm); [done|].
  rewrite sm_run_translate_m_states. by apply initialize_keeps_m_states.
Qed.

(** ** helm.cpp: the tick as a whole *)

Section tick_more.
Context `{Dictionary} {B : Type} `{!BehaviorBase B}.

(** After the bids are placed, the recorded priority of a DOF is at least
    what it was and at least the priority of every bid that claims it. *)
Lemma place_bids_top (obs : list (option bid)) (acc acc' : holders)
    (d : nat) (v v' : float) (q q' : Z) :
  well_formed acc → place_bids obs acc = Done acc' →
  slot acc d v q → slot acc' d v' q' →
  (q ≤ q')%Z ∧ ∀ ob p, ob ∈ obs → claims d p ob → (p ≤ q')%Z.
Proof.
  revert acc v q. induction obs as [|ob obs IH]; intros acc v q Hwf Hd Hs Hs'.
  - injection Hd as <-. destruct (slot_inj _ _ _ _ _ _ Hs Hs') as [_ ->].
    split; [done|]. by intros ob p ?%elem_of_nil.
  - unfold place_bids in Hd. simpl in Hd.
    apply rbind_Done in Hd as (acc1 & H1 & Hrest).
    pose proof (place_bid_well_formed _ _ _ Hwf H1) as Hwf1.
    assert (∃ v1 q1, slot acc1 d v1 q1 ∧ (q ≤ q1)%Z
                     ∧ ∀ p, claims d p ob → (p ≤ q1)%Z) as (v1 & q1 & Hs1 & Hq1 & Hob).
    { destruct ob as [b|].
      - destruct (place_bid_Done b acc acc1 Hwf H1) as [_ Hb].
        destruct (Hb d v q Hs) as [Hwin Hkeep].
        destruct (decide (d ∈ bid_dofs b ∧ (q < bid_priority b)%Z)) as [[Hin Hlt]|Hno].
        + destruct (Hwin Hin Hlt) as (v1 & _ & Hs1).
          exists v1, (bid_priority b). split; [done|]. split; [lia|].
          intros p (b' & [= <-] & _ & <-). done.
        + exists v, q. split; [|split; [done|]].
          * apply Hkeep. destruct (decide (d ∈ bid_dofs b)); [right|by left].
            destruct (decide (q < bid_priority b)%Z); [|lia]. exfalso. by apply Hno.
          * intros p (b' & [= <-] & Hin & <-).
            destruct (decide (q < bid_priority b)%Z); [|lia]. exfalso. by apply Hno.
      - injection H1 as <-. exists v, q. split; [done|]. split; [done|].
        by intros p (b' & [=] & _). }
    destruct (IH acc1 v1 q1 Hwf1 Hrest Hs1 Hs') as [Hq' Hlater].
    split; [lia|]. intros ob' p [->|Hin]%elem_of_cons Hc.
    + specialize (Hob p Hc). lia.
    + by apply (Hlater ob').
Qed.

(** A claimed DOF that is not an index of the scratch arrays stops the
    loop, whatever the priorities. *)
Lemma place_bid_out_of_range (b : bid) (acc : holders) (d : nat) :
  well_formed acc → d ∈ bid_dofs b → (CONTROLLABLE_DOF_LENGTH ≤ d)%nat →
  place_bid acc (Some b) = Undefined.
Proof.
  simpl. generalize (bid_dofs b) as ds. intros ds. revert acc.
  induction ds as [|dof ds IH]; intros acc Hwf Hin Hd; [by apply elem_of_nil in Hin|].
  simpl. destruct (arbitrate_dof _ _ acc dof) as [acc1|] eqn:H1; simpl; [|done].
  destruct (arbitrate_dof_Done _ _ _ _ _ Hwf H1) as [Hwf1 _].
  apply elem_of_cons in Hin as [->|Hin]; [|by apply IH].
  exfalso. destruct acc as [c pr]. destruct Hwf as [_ Hp]. simpl in Hp.
  unfold arbitrate_dof in H1.
  apply rbind_Done in H1 as (cur & Hcur%array_get_Done & _).
  apply lookup_lt_Some in Hcur. lia.
Qed.

Lemma place_bids_out_of_range (obs : list (option bid)) (b : bid) (acc : holders)
    (d : nat) :
  well_formed acc → Some b ∈ obs → d ∈ bid_dofs b → (CONTROLLABLE_DOF_LENGTH ≤ d)%nat →
  place_bids obs acc = Undefined.
Proof.
  revert acc. induction obs as [|ob obs IH]; intros acc Hwf Hin Hd Hge;
    [by apply elem_of_nil in Hin|].
  unfold place_bids. simpl.
  apply elem_of_cons in Hin as [<-|Hin].
  - by rewrite (place_bid_out_of_range b acc d).
  - destruct (place_bid acc ob) as [acc1|] eqn:H1; simpl; [|done].
    apply IH; try done. by eapply place_bid_well_formed.
Qed.

(** Either every bid is in range, or one of them claims a DOF past the
    end of the scratch arrays. *)
Lemma bids_in_range_or_not (obs : list (option bid)) :
  (∀ b, Some b ∈ obs → length (bid_array b) = CONTROLLABLE_DOF_LENGTH) →
  bids_in_range obs
  ∨ ∃ b d, Some b ∈ obs ∧ d ∈ bid_dofs b ∧ (CONTROLLABLE_DOF_LENGTH ≤ d)%nat.
Proof.
  induction obs as [|ob obs IH]; intros Hlen; [left; constructor|].
  destruct IH as [Hr|(b & d & Hb & Hd & Hge)].
  - intros b Hb. apply Hlen. by right.
  - destruct ob as [b|]; [|left; by constructor].
    assert (Forall (λ d, d < CONTROLLABLE_DOF_LENGTH) (bid_dofs b)
            ∨ Exists (λ d, (CONTROLLABLE_DOF_LENGTH ≤ d)%nat) (bid_dofs b)) as [Hall|Hex].
    { induction (bid_dofs b) as [|d ds IHds]; [left; constructor|].
      destruct (decide (d < CONTROLLABLE_DOF_LENGTH)).
      - destruct IHds as [?|?]; [left; by constructor | right; by apply Exists_cons_tl].
      - right. apply Exists_cons_hd. lia. }
    + left. constructor; [|done]. intros b' [= <-]. unfold bid_in_range.
      rewrite (Hlen b) by (by left).
      eapply Forall_impl; [exact Hall|]. simpl. intros. lia.
    + right. apply Exists_exists in Hex as (d & Hd & Hge).
      exists b, d. split; [by left|done].
  - right. exists b, d. split; [by right|done].
Qed.

(** X6. With feedback and a declared active mode, and set point arrays
    of [CONTROLLABLE_DOF_LENGTH] elements, the tick leaves defined
    behaviour exactly when an eligible behavior claims a DOF that is not an
    index of the scratch arrays: the priority of that DOF is read before
    anything is compared. *)
Theorem tick_Undefined_iff_out_of_range (now : Time) (h : Helm) (pv : ControlProcess)
    (am : mvp_control.ControlMode) :
  m_controller_process_values h = Some pv →
  active_mode_of h = Some am →
  (∀ i b, i ∈ m_behavior_containers h → tick_bid h pv am i = Some b →
          length (bid_array b) = CONTROLLABLE_DOF_LENGTH) →
  f_iterate now h = Undefined
  ↔ ∃ i b d, i ∈ m_behavior_containers h ∧ tick_bid h pv am i = Some b
             ∧ d ∈ bid_dofs b ∧ (CONTROLLABLE_DOF_LENGTH ≤ d)%nat.
Proof.
  intros Hpv Ham Hlen. rewrite (f_iterate_tick now h pv am Hpv Ham). split.
  - intros Hu.
    destruct (bids_in_range_or_not (tick_bid h pv am <$> m_behavior_containers h))
      as [Hr|(b & d & Hb & Hd & Hge)].
    + intros b (i & Hb & Hi)%list_elem_of_fmap. by apply (Hlen i).
    + destruct (place_bids_total _ _ well_formed_new Hr) as [acc Hacc].
      by rewrite Hacc in Hu.
    + apply list_elem_of_fmap in Hb as (i & Hb & Hi). by exists i, b, d.
  - intros (i & b & d & Hi & Hb & Hd & Hge).
    rewrite (place_bids_out_of_range _ b _ d); [done|apply well_formed_new| |done..].
    apply list_elem_of_fmap. by exists i.
Qed.

Lemma publishes_place_bids (now : Time) (h : Helm) (pv : ControlProcess)
    (am : mvp_control.ControlMode) (dof_ctrl : list float) :
  publishes now h pv am dof_ctrl →
  ∃ dof_priority,
    place_bids (tick_bid h pv am <$> m_behavior_containers h)
      (dof_ctrl_new, dof_priority_new) = Done (dof_ctrl, dof_priority).
Proof.
  intros (cs' & dof_priority & Hloop & _). exists dof_priority.
  rewrite iterate_behaviors_bids in Hloop.
  apply rbind_Done in Hloop as (acc & Hacc & [= _ <-]). done.
Qed.

(** X7. What a published command holds for a DOF: the initial zero,
    when no eligible behavior claims the DOF with a positive priority; or
    else the proposal of an eligible behavior that claims it with a
    positive priority that no other claim on that DOF exceeds. *)
Theorem published_dof_comes_from_top_bid (now : Time) (h : Helm) (pv : ControlProcess)
    (am : mvp_control.ControlMode) (dof_ctrl : list float) (d : nat) :
  publishes now h pv am dof_ctrl →
  d < CONTROLLABLE_DOF_LENGTH →
  (dof_ctrl !! d = Some 0%float
   ∧ ∀ j bj, j ∈ m_behavior_containers h → tick_bid h pv am j = Some bj →
             d ∈ bid_dofs bj → (bid_priority bj ≤ 0)%Z)
  ∨ ∃ i b, i ∈ m_behavior_containers h ∧ tick_bid h pv am i = Some b
           ∧ d ∈ bid_dofs b ∧ (0 < bid_priority b)%Z
           ∧ dof_ctrl !! d = bid_array b !! d
           ∧ ∀ j bj, j ∈ m_behavior_containers h → tick_bid h pv am j = Some bj →
                     d ∈ bid_dofs bj → (bid_priority bj ≤ bid_priority b)%Z.
Proof.
  intros (dof_priority & Hacc)%publishes_place_bids Hd.
  destruct (place_bids_origin _ _ _ d _ _ well_formed_new Hacc (slot_new d Hd))
    as (v' & q' & Hs' & Hfrom).
  destruct (place_bids_top _ _ _ d _ _ _ _ well_formed_new Hacc (slot_new d Hd) Hs')
    as [_ Htop].
  assert (∀ j bj, j ∈ m_behavior_containers h → tick_bid h pv am j = Some bj →
                  d ∈ bid_dofs bj → (bid_priority bj ≤ q')%Z) as Hall.
  { intros j bj Hj Hbj Hdj. apply (Htop (Some bj)).
    - apply list_elem_of_fmap. by exists j.
    - by exists bj. }
  destruct Hs' as [Hv' _]. simpl in Hv'.
  destruct Hfrom as [[-> ->]|(Hpos & b & Hb & Hdb & Hq & Hvb)].
  - left. by split.
  - right. apply list_elem_of_fmap in Hb as (i & Hb & Hi).
    exists i, b. subst q'. repeat split; try done. congruence.
Qed.

(** The arrays after the bids are placed do not depend on the order of
    the bids, when bids that tie on a DOF agree on its value. *)
Lemma place_bids_Permutation (obs1 obs2 : list (option bid)) (acc acc1 acc2 : holders) :
  well_formed acc → obs1 ≡ₚ obs2 → ties_agree obs1 →
  place_bids obs1 acc = Done acc1 → place_bids obs2 acc = Done acc2 →
  acc1 = acc2.
Proof.
  intros Hwf Hperm Hties H1 H2.
  pose proof (place_bids_well_formed _ _ _ Hwf H1) as [Hc1 Hp1].
  pose proof (place_bids_well_formed _ _ _ Hwf H2) as [Hc2 Hp2].
  assert (∀ d, acc1.1 !! d = acc2.1 !! d ∧ acc1.2 !! d = acc2.2 !! d) as Hsame.
  { intros d. destruct (decide (d < CONTROLLABLE_DOF_LENGTH)) as [Hd|Hd].
    - destruct (slot_is_Some acc d Hwf Hd) as (v & q & Hs).
      destruct (place_bids_origin _ _ _ d v q Hwf H1 Hs) as (v1 & q1 & Hs1 & Hfrom1).
      destruct (place_bids_origin _ _ _ d v q Hwf H2 Hs) as (v2 & q2 & Hs2 & Hfrom2).
      destruct (place_bids_top _ _ _ d _ _ _ _ Hwf H1 Hs Hs1) as [Hq1 Htop1].
      destruct (place_bids_top _ _ _ d _ _ _ _ Hwf H2 Hs Hs2) as [Hq2 Htop2].
      assert (v1 = v2 ∧ q1 = q2) as [-> ->].
      { destruct Hfrom1 as [[-> ->]|(Hlt1 & b1 & Hb1 & Hd1 & Hp1' & Hv1)];
          destruct Hfrom2 as [[-> ->]|(Hlt2 & b2 & Hb2 & Hd2 & Hp2' & Hv2)].
        - done.
        - exfalso. rewrite <- Hperm in Hb2.
          assert (q2 ≤ q)%Z; [|lia]. apply (Htop1 (Some b2)); [done|by exists b2].
        - exfalso. rewrite Hperm in Hb1.
          assert (q1 ≤ q)%Z; [|lia]. apply (Htop2 (Some b1)); [done|by exists b1].
        - assert (q1 ≤ q2)%Z.
          { rewrite Hperm in Hb1. apply (Htop2 (Some b1)); [done|by exists b1]. }
          assert (q2 ≤ q1)%Z.
          { rewrite <- Hperm in Hb2. apply (Htop1 (Some b2)); [done|by exists b2]. }
          assert (q1 = q2) as -> by lia. split; [|done].
          rewrite <- Hperm in Hb2.
          pose proof (Hties b1 b2 d Hb1 Hb2 Hd1 Hd2 ltac:(congruence)) as Heq.
          congruence. }
      destruct Hs1 as [-> ->]. by destruct Hs2 as [-> ->].
    - rewrite !lookup_ge_None_2 by lia. done. }
  destruct acc1 as [c1 p1], acc2 as [c2 p2]. simpl in *.
  f_equal; apply list_eq; intros d; by destruct (Hsame d).
Qed.

(** X8. The published command does not depend on the order in which the
    behaviors are declared, when every claimed DOF is a valid index and
    behaviors that claim the same DOF with the same priority propose the
    same value for it (in particular when their priorities differ). *)
Theorem tick_order_independent (now : Time) (h : Helm) (pv : ControlProcess)
    (am : mvp_control.ControlMode) (reordered : list (BehaviorContainer B)) :
  m_controller_process_values h = Some pv →
  active_mode_of h = Some am →
  m_behavior_containers h ≡ₚ reordered →
  tick_in_range h pv am →
  ties_agree (tick_bid h pv am <$> m_behavior_containers h) →
  effects (f_iterate now h) = effects (f_iterate now (with_containers h reordered)).
Proof.
  intros Hpv Ham Hperm Hr Hties.
  apply (with_containers_tick now h _ _ eq_refl). intros pv' am' Hpv' Ham'.
  assert (pv' = pv) as -> by congruence. assert (am' = am) as -> by congruence.
  pose proof (tick_bids_in_range h pv am Hr) as Hr1.
  assert (bids_in_range (tick_bid h pv am <$> reordered)) as Hr2.
  { unfold bids_in_range. by rewrite <- Hperm. }
  destruct (place_bids_total _ _ well_formed_new Hr1) as [acc1 H1].
  destruct (place_bids_total _ _ well_formed_new Hr2) as [acc2 H2].
  rewrite H1, H2. f_equal.
  apply (place_bids_Permutation _ _ _ _ _ well_formed_new (fmap_Permutation _ _ _ Hperm)
           Hties H1 H2).
Qed.

(** X9. A tick that completes never changes the state machine, the
    cached modes, the feedback, the frequency or the options of a
    behavior, and it logs or publishes at most one thing. *)
Theorem f_iterate_frame (now : Time) (h h' : Helm) (evs : list event) :
  f_iterate now h = Done (h', evs) →
  m_state_machine h' = m_state_machine h
  ∧ m_controller_modes h' = m_controller_modes h
  ∧ m_controller_process_values h' = m_controller_process_values h
  ∧ m_helm_freq h' = m_helm_freq h
  ∧ m_opts <$> m_behavior_containers h' = m_opts <$> m_behavior_containers h
  ∧ (length evs ≤ 1)%nat.
Proof.
  intros Hdone.
  destruct (m_controller_process_values h) as [pv|] eqn:Hpv.
  - destruct (active_mode_of h) as [am|] eqn:Ham.
    + rewrite (f_iterate_tick now h pv am Hpv Ham) in Hdone.
      apply rbind_Done in Hdone as (acc & _ & [= <- <-]). simpl.
      repeat split; try done. rewrite <- list_fmap_compose.
      by apply list_fmap_ext.
    + unfold f_iterate in Hdone. rewrite Hpv in Hdone.
      unfold active_mode_of in Ham. rewrite Ham in Hdone.
      injection Hdone as <- <-. rewrite Hpv. repeat split; simpl; lia.
  - unfold f_iterate in Hdone. rewrite Hpv in Hdone.
    injection Hdone as <- <-. rewrite Hpv. repeat split; simpl; lia.
Qed.

End tick_more.

(** ** helm.cpp: the loop *)

Section loop.
Context `{Dictionary} {B : Type} `{!BehaviorBase B}.



End loop.

(** ** depth_tracking.cpp: the pitch limit *)

(** A non-negative binary64 value is not below its own magnitude, nor
    below the magnitude of its opposite. *)
Lemma float_not_below_abs (m : float) :
  PrimFloat.leb 0%float m = true →
  PrimFloat.ltb m (PrimFloat.abs m) = false
  ∧ PrimFloat.ltb m (PrimFloat.abs (PrimFloat.opp m)) = false.
Proof.
  rewrite FloatAxioms.leb_spec, !FloatAxioms.ltb_spec, !FloatAxioms.abs_spec,
    FloatAxioms.opp_spec.
  change (FloatOps.Prim2SF 0%float) with (SpecFloat.S754_zero false).
  destruct (FloatOps.Prim2SF m) as [s|s| |s mm e]; simpl.
  - done.
  - destruct s; [discriminate|]. done.
  - discriminate.
  - destruct s; [discriminate|]. intros _.
    unfold SpecFloat.SFltb. simpl.
    by rewrite Z.compare_refl, Pos.compare_cont_refl.
Qed.

(** X11. [DepthTracking::request_set_point] always returns true and
    writes nothing but the pitch of the set point, not even the depth it
    claims; when [m_max_pitch] is not negative, the pitch it writes never
    exceeds [m_max_pitch] in magnitude, whatever the feedback, the
    requested depth and the value of [atan]. *)
Theorem request_set_point_limits_pitch (atan : float → float)
    (self : depth_tracking.DepthTracking) (set_point : depth_tracking.ControlProcess) :
  PrimFloat.leb 0%float (depth_tracking.m_max_pitch self) = true →
  let '(ok, out) := depth_tracking.request_set_point atan self set_point in
  ok = true
  ∧ PrimFloat.ltb (depth_tracking.m_max_pitch self)
      (PrimFloat.abs (depth_tracking.y (depth_tracking.orientation out))) = false
  ∧ depth_tracking.position out = depth_tracking.position set_point
  ∧ depth_tracking.velocity out = depth_tracking.velocity set_point
  ∧ depth_tracking.x (depth_tracking.orientation out)
    = depth_tracking.x (depth_tracking.orientation set_point)
  ∧ depth_tracking.z (depth_tracking.orientation out)
    = depth_tracking.z (depth_tracking.orientation set_point).
Proof.
  intros Hmax. unfold depth_tracking.request_set_point. simpl.
  repeat split.
  destruct (float_not_below_abs _ Hmax) as [Hpos Hneg].
  destruct (PrimFloat.ltb _ (PrimFloat.abs (depth_tracking.raw_pitch atan self)))
    eqn:Hover; [|done].
  by destruct (PrimFloat.leb 0%float (depth_tracking.raw_pitch atan self)).
Qed.

(** ** sm.cpp: paths *)

Lemma translate_to_step (state_name : string) (sm : StateMachine) :
  m_active_state (translate_to state_name sm).2 = m_active_state sm
  ∨ declared_transition sm (m_active_state sm)
      (m_active_state (translate_to state_name sm).2).
Proof.
  unfold translate_to.
  destruct (find _ (transitions _)) as [t|] eqn:Ht; [|by left].
  destruct (find _ (m_states sm)) as [target|] eqn:Hs; [|by left].
  right. unfold declared_transition. simpl.
  apply find_some in Ht as [Ht Htn%string_eqb_true].
  apply find_some in Hs as [Hs Hsn%string_eqb_true].
  rewrite Hsn, <- Htn. split; by apply list_elem_of_In.
Qed.

(** X12. Whatever sequence of transitions is requested, the active state
    moves only along declared transitions: the state that ends up active
    is linked to the one that was active by a chain of declared states,
    each listed by name in the transitions of the one before. *)
Theorem translate_to_follows_transitions (names : list string) (sm : StateMachine) :
  rtc (declared_transition sm) (m_active_state sm)
    (m_active_state (sm_run (call_translate_to <$> names) sm)).
Proof.
  revert sm. induction names as [|n names IH]; intros sm; [done|].
  rewrite fmap_cons.
  change (sm_run (call_translate_to n :: (call_translate_to <$> names)) sm)
    with (sm_run (call_translate_to <$> names) (sm_do sm (call_translate_to n))).
  specialize (IH (sm_do sm (call_translate_to n))). simpl in IH.
  assert (rtc (declared_transition sm) (m_active_state (translate_to n sm).2)
            (m_active_state (sm_run (call_translate_to <$> names) (translate_to n sm).2)))
    as Hrest.
  { eapply rtc_subrel; [|exact IH].
    intros a b [Hname Hin]. split; [done|]. by rewrite translate_to_m_states in Hin. }
  destruct (translate_to_step n sm) as [Heq|Hstep].
  - by rewrite Heq in Hrest.
  - by eapply rtc_l.
Qed.

(** ** helm.cpp: feedback and disjoint claims *)

Section tick_feedback.
Context `{Dictionary} {B : Type} `{!BehaviorBase B}.


Lemma publishes_unique (now : Time) (h : Helm) (pv : ControlProcess)
    (am : mvp_control.ControlMode) (a1 a2 : list float) :
  publishes now h pv am a1 → publishes now h pv am a2 → a1 = a2.
Proof. intros (? & ? & H1 & _) (? & ? & H2 & _). congruence. Qed.

(** X14. A behavior whose claimed DOFs no other eligible behavior
    claims, eligible with a positive priority, has its proposal published
    on every DOF it claims, wherever it is declared and whatever the other
    priorities are. *)
Theorem disjoint_claims_all_published (now : Time) (h : Helm) (pv : ControlProcess)
    (am : mvp_control.ControlMode) (pre post : list (BehaviorContainer B))
    (i : BehaviorContainer B) (b : bid) :
  m_controller_process_values h = Some pv →
  active_mode_of h = Some am →
  m_behavior_containers h = pre ++ i :: post →
  tick_in_range h pv am →
  tick_bid h pv am i = Some b →
  (0 < bid_priority b)%Z →
  (∀ j bj d, j ∈ pre ++ post → tick_bid h pv am j = Some bj →
             d ∈ bid_dofs b → d ∉ bid_dofs bj) →
  ∃ dof_ctrl,
    publishes now h pv am dof_ctrl
    ∧ ∀ d, d ∈ bid_dofs b → is_Some (dof_ctrl !! d) ∧ dof_ctrl !! d = bid_array b !! d.
Proof.
  intros Hpv Ham Hcs Hr Hb Hpos Hapart.
  destruct (tick_publishes now h pv am Hpv Ham Hr) as [dof_ctrl Hpub].
  exists dof_ctrl. split; [done|]. intros d Hd.
  destruct (tick_winner now h pv am pre post i b d) as (a & v & Ha & Hv & Hav);
    try done.
  - intros j bj Hj Hbj Hdj. exfalso.
    apply (Hapart j bj d); [apply elem_of_app; by left|done..].
  - intros j bj Hj Hbj Hdj. exfalso.
    apply (Hapart j bj d); [apply elem_of_app; by right|done..].
  - rewrite (publishes_unique now h pv am dof_ctrl a Hpub Ha).
    split; [by eexists | congruence].
Qed.

End tick_feedback.

(** ** The further properties on the sample mission *)

Lemma get_state_of_declared_witness :
  get_state (name state_B) no_state (machine_at state_A) = (true, state_B).
Proof.
  apply (get_state_of_declared state_B no_state (machine_at state_A)).
  - apply (bool_decide_unpack _). vm_compute. exact I.
  - right. by left.
Defined.

Lemma active_state_stays_declared_witness :
  let sm := {| m_states := [state_B; state_A; state_C]; m_active_state := no_state |} in
  let sm0 := {| m_states := [state_B; state_A; state_C]; m_active_state := state_A |} in
  let calls := [call_translate_to "B"; call_append_state state_A_again;
                call_translate_to "A"; call_translate_to "C"] in
  m_active_state (sm_run calls sm0) ∈ m_states (sm_run calls sm0)
  ∧ (get_state (name (m_active_state (sm_run calls sm0))) no_state (sm_run calls sm0)).1
    = true
  ∧ m_states sm `prefix_of` m_states (sm_run calls sm0).
Proof.
  apply (active_state_stays_declared
           {| m_states := [state_B; state_A; state_C]; m_active_state := no_state |}).
  reflexivity.
Defined.

Lemma initialize_after_transitions_witness :
  initialize (sm_run (call_translate_to <$> ["B"; "A"; "B"]) (machine_at state_A))
  = Done (machine_at state_A).
Proof.
  apply (initialize_after_transitions (machine_at state_C)). reflexivity.
Defined.

Lemma tick_Undefined_iff_out_of_range_witness :
  f_iterate at_3 helm_wild = Undefined
  ↔ ∃ i b d, i ∈ m_behavior_containers helm_wild
             ∧ tick_bid helm_wild feedback flight i = Some b
             ∧ d ∈ bid_dofs b ∧ (CONTROLLABLE_DOF_LENGTH ≤ d)%nat.
Proof.
  apply (tick_Undefined_iff_out_of_range at_3 helm_wild feedback flight).
  - reflexivity.
  - reflexivity.
  - intros i b Hi Hb.
    apply elem_of_cons in Hi as [->|Hi];
      [|apply elem_of_cons in Hi as [->|Hi]; [|by apply elem_of_nil in Hi]];
      vm_compute in Hb; simplify_eq; reflexivity.
Defined.

Lemma published_dof_comes_from_top_bid_witness :
  (([0; 0; 3.5; 0; 0.25; 0]%float : list float) !! DOF_PITCH = Some 0%float
   ∧ ∀ j bj, j ∈ m_behavior_containers helm_two →
             tick_bid helm_two feedback flight j = Some bj →
             DOF_PITCH ∈ bid_dofs bj → (bid_priority bj ≤ 0)%Z)
  ∨ ∃ i b, i ∈ m_behavior_containers helm_two
           ∧ tick_bid helm_two feedback flight i = Some b
           ∧ DOF_PITCH ∈ bid_dofs b ∧ (0 < bid_priority b)%Z
           ∧ ([0; 0; 3.5; 0; 0.25; 0]%float : list float) !! DOF_PITCH
             = bid_array b !! DOF_PITCH
           ∧ ∀ j bj, j ∈ m_behavior_containers helm_two →
                     tick_bid helm_two feedback flight j = Some bj →
                     DOF_PITCH ∈ bid_dofs bj → (bid_priority bj ≤ bid_priority b)%Z.
Proof.
  apply (published_dof_comes_from_top_bid at_3 helm_two feedback flight).
  - do 2 eexists. split; reflexivity.
  - vm_compute. lia.
Defined.

Lemma tick_order_independent_witness :
  effects (f_iterate at_3 helm_two)
  = effects (f_iterate at_3 (with_containers helm_two [depth; level])).
Proof.
  apply (tick_order_independent at_3 helm_two feedback flight [depth; level]).
  - reflexivity.
  - reflexivity.
  - apply perm_swap.
  - in_range.
  - intros b1 b2 d Hb1 Hb2 _ _ Hp.
    vm_compute in Hb1, Hb2.
    apply elem_of_cons in Hb1 as [Hb1|Hb1];
      [|apply elem_of_cons in Hb1 as [Hb1|Hb1]; [|by apply elem_of_nil in Hb1]];
      (apply elem_of_cons in Hb2 as [Hb2|Hb2];
        [|apply elem_of_cons in Hb2 as [Hb2|Hb2]; [|by apply elem_of_nil in Hb2]]);
      simplify_eq; try reflexivity; simpl in Hp; lia.
Defined.

Lemma f_iterate_frame_witness :
  let h' := with_containers helm_two
              (consulted (active_dofs flight) feedback <$> [level; depth]) in
  let evs := [publish {| values := [0; 0; 3.5; 0; 0.25; 0]%float;
                         control_mode := "flight"; stamp := 3 |}] in
  m_state_machine h' = m_state_machine helm_two
  ∧ m_controller_modes h' = m_controller_modes helm_two
  ∧ m_controller_process_values h' = m_controller_process_values helm_two
  ∧ m_helm_freq h' = m_helm_freq helm_two
  ∧ m_opts <$> m_behavior_containers h' = m_opts <$> m_behavior_containers helm_two
  ∧ (length evs ≤ 1)%nat.
Proof.
  apply (f_iterate_frame at_3 helm_two). reflexivity.
Defined.


Lemma request_set_point_limits_pitch_witness :
  let self :=
    depth_tracking.f_cb_sub 20%float
      (depth_tracking.initialize 4 2 ∅ depth_tracking.at_rest) in
  let '(ok, out) :=
    depth_tracking.request_set_point (λ t, t) self
      (depth_tracking.m_process_values depth_tracking.at_rest) in
  ok = true
  ∧ PrimFloat.ltb (depth_tracking.m_max_pitch self)
      (PrimFloat.abs (depth_tracking.y (depth_tracking.orientation out))) = false
  ∧ depth_tracking.position out
    = depth_tracking.position (depth_tracking.m_process_values depth_tracking.at_rest)
  ∧ depth_tracking.velocity out
    = depth_tracking.velocity (depth_tracking.m_process_values depth_tracking.at_rest)
  ∧ depth_tracking.x (depth_tracking.orientation out)
    = depth_tracking.x (depth_tracking.orientation
                          (depth_tracking.m_process_values depth_tracking.at_rest))
  ∧ depth_tracking.z (depth_tracking.orientation out)
    = depth_tracking.z (depth_tracking.orientation
                          (depth_tracking.m_process_values depth_tracking.at_rest)).
Proof.
  apply (request_set_point_limits_pitch (λ t, t)
           (depth_tracking.f_cb_sub 20%float
              (depth_tracking.initialize 4 2 ∅ depth_tracking.at_rest))).
  reflexivity.
Defined.

(** The limit at work: 20 below the requested depth with the default
    parameters, the raw pitch (with the identity in place of [atan]) is
    -20/3 and the plugin commands -pi/2. *)
Example request_set_point_saturated :
  depth_tracking.y (depth_tracking.orientation
    (depth_tracking.request_set_point (λ t, t)
       (depth_tracking.f_cb_sub 20%float
          (depth_tracking.initialize 4 2 ∅ depth_tracking.at_rest))
       (depth_tracking.m_process_values depth_tracking.at_rest)).2)
  = PrimFloat.opp depth_tracking.M_PI_2.
Proof. reflexivity. Qed.


Lemma disjoint_claims_all_published_witness :
  ∃ dof_ctrl,
    publishes at_3 helm_apart feedback flight dof_ctrl
    ∧ ∀ d, d ∈ [DOF_YAW; DOF_X] →
        is_Some (dof_ctrl !! d)
        ∧ dof_ctrl !! d = ([7; 0; 0; 0; 0; 1.25]%float : list float) !! d.
Proof.
  apply (disjoint_claims_all_published at_3 helm_apart feedback flight [level] [] steer
           {| bid_priority := 2; bid_dofs := [DOF_YAW; DOF_X];
              bid_array := [7; 0; 0; 0; 0; 1.25]%float |}).
  - reflexivity.
  - reflexivity.
  - reflexivity.
  - in_range.
  - reflexivity.
  - simpl. lia.
  - intros j bj d Hj Hbj Hd Hdj.
    apply elem_of_cons in Hj as [->|Hj]; [|by apply elem_of_nil in Hj].
    vm_compute in Hbj. simplify_eq. simpl in Hdj.
    apply list_elem_of_singleton in Hdj as ->.
    apply elem_of_cons in Hd as [Hd|Hd]; [discriminate|].
    apply list_elem_of_singleton in Hd. discriminate.
Defined.
